(** * Obsidian Snake: the game core of [src/main.ts]

    A shallow embedding of the state machine of [SnakeGameModal]: the input
    queue filled by [keyDownHandler], the per-tick update [updateGameState]
    and the food placement [generateFood], followed by the properties of the
    natural-language specification.

    Conventions of the embedding.
    - JavaScript numbers that the code only ever uses as integers (grid
      coordinates, score, intervals, settings taken from integer sliders) are
      [Z]; the [%] operator is the truncating remainder [Z.rem].
    - Time stamps ([performance.now()]) and the values of [Math.random()] are
      rationals [Q].
    - [Math.random()] is an oracle: the functions that draw take the list of
      the values the next calls return (the tape) and give back what is left.
      A loop that has used up the tape without returning yields [OutOfDraws].
    - Reading a property of [undefined] is the result [TypeError].
    - DOM work (menus, canvas drawing, timers) is not part of the state. *)

From Stdlib Require Import ZArith QArith Qround List Bool Lia String.
Import ListNotations.
Open Scope Z_scope.

(** ** Data *)

(** The four strings ['up'], ['down'], ['left'], ['right']. *)
Inductive Direction : Set := Up | Down | Left | Right.

Definition Direction_eqb (a b : Direction) : bool :=
  match a, b with
  | Up, Up | Down, Down | Left, Left | Right, Right => true
  | _, _ => false
  end.

(** [SnakePluginSettings], without the colour and animation switches that
    only the renderer reads. [gridSize] is the number of cells per axis. *)
Record SnakePluginSettings : Set := {
  highScore : Z;
  gameSpeed : Z;
  gridSize : Z;
  speedIncrease : Z
}.

Definition DEFAULT_SETTINGS : SnakePluginSettings :=
  {| highScore := 0; gameSpeed := 150; gridSize := 20; speedIncrease := 2 |}.

(** An element of [this.snake]: [{ x, y, actualX?, actualY? }]. *)
Record Segment : Set := {
  x : Z;
  y : Z;
  actualX : option Z;
  actualY : option Z
}.

(** [this.food]: [{ x, y }]. *)
Record Point : Set := { px : Z; py : Z }.

(** The fields of [SnakeGameModal]. The source has two fields called
    [gridSize]: [this.plugin.settings.gridSize], the number of cells, and
    [this.gridSize], the size of a cell in pixels; the latter is [cellSize]
    here. *)
Record State : Type := {
  snake : list Segment;
  food : Point;
  direction : Direction;
  nextDirection : Direction;
  score : Z;
  cellSize : Z;
  gameOver : bool;
  gameStarted : bool;
  lastFrameTime : Q;
  moveInterval : Z;
  isPaused : bool;
  lastMoveTime : Q;
  inputQueue : list Direction;
  settings : SnakePluginSettings
}.

Definition MAX_QUEUED_INPUTS : nat := 2.

(** Results of the operations that can fail. *)
Inductive Result (A : Type) : Type :=
| Ok (a : A)
| TypeError
| OutOfDraws.
Arguments Ok {A} a.
Arguments TypeError {A}.
Arguments OutOfDraws {A}.

(** Field updates. *)
Definition set_snake (v : list Segment) (s : State) : State :=
  {| snake := v; food := food s; direction := direction s;
     nextDirection := nextDirection s; score := score s;
     cellSize := cellSize s; gameOver := gameOver s;
     gameStarted := gameStarted s; lastFrameTime := lastFrameTime s;
     moveInterval := moveInterval s; isPaused := isPaused s;
     lastMoveTime := lastMoveTime s; inputQueue := inputQueue s;
     settings := settings s |}.

Definition set_food (v : Point) (s : State) : State :=
  {| snake := snake s; food := v; direction := direction s;
     nextDirection := nextDirection s; score := score s;
     cellSize := cellSize s; gameOver := gameOver s;
     gameStarted := gameStarted s; lastFrameTime := lastFrameTime s;
     moveInterval := moveInterval s; isPaused := isPaused s;
     lastMoveTime := lastMoveTime s; inputQueue := inputQueue s;
     settings := settings s |}.

Definition set_direction (v : Direction) (s : State) : State :=
  {| snake := snake s; food := food s; direction := v;
     nextDirection := nextDirection s; score := score s;
     cellSize := cellSize s; gameOver := gameOver s;
     gameStarted := gameStarted s; lastFrameTime := lastFrameTime s;
     moveInterval := moveInterval s; isPaused := isPaused s;
     lastMoveTime := lastMoveTime s; inputQueue := inputQueue s;
     settings := settings s |}.

Definition set_score (v : Z) (s : State) : State :=
  {| snake := snake s; food := food s; direction := direction s;
     nextDirection := nextDirection s; score := v;
     cellSize := cellSize s; gameOver := gameOver s;
     gameStarted := gameStarted s; lastFrameTime := lastFrameTime s;
     moveInterval := moveInterval s; isPaused := isPaused s;
     lastMoveTime := lastMoveTime s; inputQueue := inputQueue s;
     settings := settings s |}.

Definition set_cellSize (v : Z) (s : State) : State :=
  {| snake := snake s; food := food s; direction := direction s;
     nextDirection := nextDirection s; score := score s;
     cellSize := v; gameOver := gameOver s;
     gameStarted := gameStarted s; lastFrameTime := lastFrameTime s;
     moveInterval := moveInterval s; isPaused := isPaused s;
     lastMoveTime := lastMoveTime s; inputQueue := inputQueue s;
     settings := settings s |}.

Definition set_gameOver (v : bool) (s : State) : State :=
  {| snake := snake s; food := food s; direction := direction s;
     nextDirection := nextDirection s; score := score s;
     cellSize := cellSize s; gameOver := v;
     gameStarted := gameStarted s; lastFrameTime := lastFrameTime s;
     moveInterval := moveInterval s; isPaused := isPaused s;
     lastMoveTime := lastMoveTime s; inputQueue := inputQueue s;
     settings := settings s |}.

Definition set_gameStarted (v : bool) (s : State) : State :=
  {| snake := snake s; food := food s; direction := direction s;
     nextDirection := nextDirection s; score := score s;
     cellSize := cellSize s; gameOver := gameOver s;
     gameStarted := v; lastFrameTime := lastFrameTime s;
     moveInterval := moveInterval s; isPaused := isPaused s;
     lastMoveTime := lastMoveTime s; inputQueue := inputQueue s;
     settings := settings s |}.

Definition set_lastFrameTime (v : Q) (s : State) : State :=
  {| snake := snake s; food := food s; direction := direction s;
     nextDirection := nextDirection s; score := score s;
     cellSize := cellSize s; gameOver := gameOver s;
     gameStarted := gameStarted s; lastFrameTime := v;
     moveInterval := moveInterval s; isPaused := isPaused s;
     lastMoveTime := lastMoveTime s; inputQueue := inputQueue s;
     settings := settings s |}.

Definition set_moveInterval (v : Z) (s : State) : State :=
  {| snake := snake s; food := food s; direction := direction s;
     nextDirection := nextDirection s; score := score s;
     cellSize := cellSize s; gameOver := gameOver s;
     gameStarted := gameStarted s; lastFrameTime := lastFrameTime s;
     moveInterval := v; isPaused := isPaused s;
     lastMoveTime := lastMoveTime s; inputQueue := inputQueue s;
     settings := settings s |}.

Definition set_isPaused (v : bool) (s : State) : State :=
  {| snake := snake s; food := food s; direction := direction s;
     nextDirection := nextDirection s; score := score s;
     cellSize := cellSize s; gameOver := gameOver s;
     gameStarted := gameStarted s; lastFrameTime := lastFrameTime s;
     moveInterval := moveInterval s; isPaused := v;
     lastMoveTime := lastMoveTime s; inputQueue := inputQueue s;
     settings := settings s |}.

Definition set_lastMoveTime (v : Q) (s : State) : State :=
  {| snake := snake s; food := food s; direction := direction s;
     nextDirection := nextDirection s; score := score s;
     cellSize := cellSize s; gameOver := gameOver s;
     gameStarted := gameStarted s; lastFrameTime := lastFrameTime s;
     moveInterval := moveInterval s; isPaused := isPaused s;
     lastMoveTime := v; inputQueue := inputQueue s;
     settings := settings s |}.

Definition set_inputQueue (v : list Direction) (s : State) : State :=
  {| snake := snake s; food := food s; direction := direction s;
     nextDirection := nextDirection s; score := score s;
     cellSize := cellSize s; gameOver := gameOver s;
     gameStarted := gameStarted s; lastFrameTime := lastFrameTime s;
     moveInterval := moveInterval s; isPaused := isPaused s;
     lastMoveTime := lastMoveTime s; inputQueue := v;
     settings := settings s |}.

Definition set_settings (v : SnakePluginSettings) (s : State) : State :=
  {| snake := snake s; food := food s; direction := direction s;
     nextDirection := nextDirection s; score := score s;
     cellSize := cellSize s; gameOver := gameOver s;
     gameStarted := gameStarted s; lastFrameTime := lastFrameTime s;
     moveInterval := moveInterval s; isPaused := isPaused s;
     lastMoveTime := lastMoveTime s; inputQueue := inputQueue s;
     settings := v |}.

Definition set_highScore (v : Z) (c : SnakePluginSettings) : SnakePluginSettings :=
  {| highScore := v; gameSpeed := gameSpeed c; gridSize := gridSize c;
     speedIncrease := speedIncrease c |}.

(** ** Coordinates *)

(** The coordinates of a segment. *)
Definition cellOf (seg : Segment) : Point := {| px := x seg; py := y seg |}.

(** [this.snake.some(segment => segment.x === x && segment.y === y)]. *)
Definition occupies (body : list Segment) (cx cy : Z) : bool :=
  existsb (fun segment => (x segment =? cx) && (y segment =? cy)) body.

(** ** Food placement: [generateFood] *)

(** [Math.floor(r * n)] for a value [r] of [Math.random()]. *)
Definition randomIndex (r : Q) (n : Z) : Z := Qfloor (r * inject_Z n).

(** The [do ... while] loop: each round takes two values of
    [Math.random()], the first for [x] and the second for [y], and the loop
    goes round again while the cell is on the snake. *)
Fixpoint generateFood (n : Z) (body : list Segment) (tape : list Q)
  : option (Point * list Q) :=
  match tape with
  | rx :: ry :: rest =>
      let cx := randomIndex rx n in
      let cy := randomIndex ry n in
      if occupies body cx cy then generateFood n body rest
      else Some ({| px := cx; py := cy |}, rest)
  | _ => None
  end.

(** ** The input queue: [isValidDirection] and the end of [keyDownHandler] *)

(** [lastDir] is the last queued direction, or [this.direction] when the
    queue is empty. *)
Definition isValidDirection (s : State) (newDir : Direction) : bool :=
  let lastDir := last (inputQueue s) (direction s) in
  negb ((Direction_eqb lastDir Up && Direction_eqb newDir Down)
        || (Direction_eqb lastDir Down && Direction_eqb newDir Up)
        || (Direction_eqb lastDir Left && Direction_eqb newDir Right)
        || (Direction_eqb lastDir Right && Direction_eqb newDir Left)).

(** The specification's [offer]: the conditional push that ends
    [keyDownHandler]. *)
Definition offer (newDirection : Direction) (s : State) : State :=
  if isValidDirection s newDirection
     && (List.length (inputQueue s) <? MAX_QUEUED_INPUTS)%nat
  then set_inputQueue (inputQueue s ++ [newDirection]) s
  else s.

(** The [switch (e.key)] of the handler. *)
Definition keyDirection (key : string) : option Direction :=
  if ((key =? "ArrowUp") || (key =? "w") || (key =? "k"))%string then Some Up
  else if ((key =? "ArrowDown") || (key =? "s") || (key =? "j"))%string
  then Some Down
  else if ((key =? "ArrowLeft") || (key =? "a") || (key =? "h"))%string
  then Some Left
  else if ((key =? "ArrowRight") || (key =? "d") || (key =? "l"))%string
  then Some Right
  else None.

Definition startGame (now : Q) (s : State) : State :=
  set_lastMoveTime now (set_lastFrameTime now (set_gameStarted true s)).

Definition togglePause (now : Q) (s : State) : State :=
  let s1 := set_isPaused (negb (isPaused s)) s in
  if isPaused s1 then s1 else set_lastMoveTime now s1.

(** [keyDownHandler]; [now] is the value of [performance.now()]. *)
Definition keyDownHandler (now : Q) (key : string) (s : State) : State :=
  if negb (gameStarted s) then
    if ((key =? "Enter") || (key =? " "))%string then startGame now s else s
  else if (key =? "Escape")%string then togglePause now s
  else if isPaused s then s
  else match keyDirection key with
       | Some newDirection => offer newDirection s
       | None => s
       end.

(** ** Start of a game: [initializeGame], the constructor and [onOpen] *)

Definition initializeGame (s : State) : State :=
  let centerX := gridSize (settings s) / 2 in
  let centerY := gridSize (settings s) / 2 in
  {| snake := [ {| x := centerX; y := centerY;
                   actualX := None; actualY := None |} ];
     food := food s;
     direction := Right;
     nextDirection := Right;
     score := 0;
     cellSize := cellSize s;
     gameOver := false;
     gameStarted := false;
     lastFrameTime := 0;
     moveInterval := gameSpeed (settings s);
     isPaused := isPaused s;
     lastMoveTime := lastMoveTime s;
     inputQueue := inputQueue s;
     settings := settings s |}.

(** [adjustCanvasSize] for a canvas of [size] pixels: the cell size is
    recomputed, the segments get their pixel positions, and food that lies
    outside the grid is placed again. *)
Definition adjustCanvasSize (size : Z) (s : State) (tape : list Q)
  : Result (State * list Q) :=
  let n := gridSize (settings s) in
  let c := size / n in
  let s1 := set_cellSize c s in
  let s2 := set_snake
              (map (fun segment =>
                      {| x := x segment; y := y segment;
                         actualX := Some (x segment * c);
                         actualY := Some (y segment * c) |}) (snake s1)) s1 in
  if (px (food s2) >=? n) || (py (food s2) >=? n) then
    match generateFood n (snake s2) tape with
    | Some (f, rest) => Ok (set_food f s2, rest)
    | None => OutOfDraws
    end
  else Ok (s2, tape).

(** The constructor followed by [onOpen]: the fields get their first values,
    the first food is drawn, and the canvas is sized. *)
Definition onOpen (cfg : SnakePluginSettings) (size : Z) (tape : list Q)
  : Result (State * list Q) :=
  let n := gridSize cfg in
  let start := [ {| x := n / 2; y := n / 2;
                    actualX := None; actualY := None |} ] in
  match generateFood n start tape with
  | None => OutOfDraws
  | Some (f, rest) =>
      adjustCanvasSize size
        (initializeGame
           {| snake := []; food := f; direction := Right;
              nextDirection := Right; score := 0; cellSize := 0;
              gameOver := false; gameStarted := false; lastFrameTime := 0;
              moveInterval := gameSpeed cfg; isPaused := false;
              lastMoveTime := 0; inputQueue := []; settings := cfg |})
        rest
  end.

(** ** The tick: [updateGameState] *)

(** The high-score update of [showGameOverMenu]. *)
Definition showGameOverMenu (s : State) : State :=
  if score s >? highScore (settings s)
  then set_settings (set_highScore (score s) (settings s)) s
  else s.

(** [this.direction] after the queue was served. *)
Definition servedDirection (s : State) : Direction :=
  match inputQueue s with
  | [] => direction s
  | d :: _ => d
  end.

(** The [switch (this.direction)] that moves the copy of the head. *)
Definition moveHead (n : Z) (d : Direction) (head : Segment) : Segment :=
  match d with
  | Up => {| x := x head; y := Z.rem (y head - 1 + n) n;
             actualX := actualX head; actualY := actualY head |}
  | Down => {| x := x head; y := Z.rem (y head + 1) n;
               actualX := actualX head; actualY := actualY head |}
  | Left => {| x := Z.rem (x head - 1 + n) n; y := y head;
               actualX := actualX head; actualY := actualY head |}
  | Right => {| x := Z.rem (x head + 1) n; y := y head;
                actualX := actualX head; actualY := actualY head |}
  end.

Definition updateGameState (currentTime : Q) (s : State) (tape : list Q)
  : Result (State * list Q) :=
  if gameOver s || isPaused s then Ok (s, tape)
  else
    (* Process queued inputs *)
    let s1 := match inputQueue s with
              | [] => s
              | d :: q => set_inputQueue q (set_direction d s)
              end in
    match snake s1 with
    | [] => TypeError
    | first :: _ =>
        let n := gridSize (settings s1) in
        (* Move snake *)
        let head := moveHead n (direction s1) first in
        (* Check collision with self *)
        if occupies (snake s1) (x head) (y head) then
          Ok (showGameOverMenu (set_gameOver true s1), tape)
        else
          let newHead := {| x := x head; y := y head;
                            actualX := Some (x first * cellSize s1);
                            actualY := Some (y first * cellSize s1) |} in
          let s2 := set_snake (newHead :: snake s1) s1 in
          (* Check if food is eaten *)
          if (x head =? px (food s2)) && (y head =? py (food s2)) then
            let s3 := set_score (score s2 + 10) s2 in
            match generateFood n (snake s3) tape with
            | None => OutOfDraws
            | Some (f, rest) =>
                let s4 := set_food f s3 in
                (* Increase speed if enabled *)
                let s5 :=
                  if (speedIncrease (settings s4) >? 0)
                     && (moveInterval s4 >? 50)
                  then set_moveInterval
                         (moveInterval s4 - speedIncrease (settings s4)) s4
                  else s4 in
                Ok (set_lastMoveTime currentTime s5, rest)
            end
          else
            Ok (set_lastMoveTime currentTime
                  (set_snake (removelast (snake s2)) s2), tape)
    end.

(** ** Runs of the game *)

(** The two restart buttons (pause menu and game-over menu). *)
Definition restartFromPause (s : State) : State :=
  initializeGame (set_isPaused false s).

Definition playAgain (s : State) : State := initializeGame s.

(** The states a game opened with settings [cfg] can be in: it starts with
    [onOpen] and goes on by ticks, offered directions, key presses and
    restarts, with any values of [Math.random()] and of the clock. *)
Inductive reachable (cfg : SnakePluginSettings) : State -> Prop :=
| reach_open size tape s rest :
    onOpen cfg size tape = Ok (s, rest) -> reachable cfg s
| reach_tick now tape s s' rest :
    reachable cfg s ->
    updateGameState now s tape = Ok (s', rest) -> reachable cfg s'
| reach_offer d s :
    reachable cfg s -> reachable cfg (offer d s)
| reach_key now key s :
    reachable cfg s -> reachable cfg (keyDownHandler now key s)
| reach_restart s :
    reachable cfg s -> reachable cfg (restartFromPause s)
| reach_again s :
    reachable cfg s -> reachable cfg (playAgain s).

(** ** Notions of the specification, read off the code *)

(** The 180-degree reverse of a direction. *)
Definition opposite (d : Direction) : Direction :=
  match d with
  | Up => Down
  | Down => Up
  | Left => Right
  | Right => Left
  end.

(** The step of a direction on the grid. *)
Definition dx (d : Direction) : Z :=
  match d with Left => -1 | Right => 1 | _ => 0 end.

Definition dy (d : Direction) : Z :=
  match d with Up => -1 | Down => 1 | _ => 0 end.

(** The state after the queue was served. *)
Definition served (s : State) : State :=
  match inputQueue s with
  | [] => s
  | d :: q => set_inputQueue q (set_direction d s)
  end.

(** The speed-up of a tick that eats. *)
Definition speedUp (s : State) : State :=
  if (speedIncrease (settings s) >? 0) && (moveInterval s >? 50)
  then set_moveInterval (moveInterval s - speedIncrease (settings s)) s
  else s.

(** The head cell a tick of [s] computes: the first segment moved in the
    direction the tick serves. *)
Definition movedHead (s : State) : option Segment :=
  match snake s with
  | [] => None
  | first :: _ =>
      Some (moveHead (gridSize (settings s)) (servedDirection s) first)
  end.

(** Whether that cell is a cell of the snake, and whether it is the food. *)
Definition hitsSnake (s : State) (head : Segment) : bool :=
  occupies (snake s) (x head) (y head).

Definition onFood (s : State) (head : Segment) : bool :=
  (x head =? px (food s)) && (y head =? py (food s)).

(** The segment a committed tick puts in front. *)
Definition committedHead (s : State) (head : Segment) : Segment :=
  {| x := x head; y := y head;
     actualX := option_map (fun first => x first * cellSize s)
                           (hd_error (snake s));
     actualY := option_map (fun first => y first * cellSize s)
                           (hd_error (snake s)) |}.

Definition inGrid (n : Z) (c : Point) : Prop :=
  0 <= px c < n /\ 0 <= py c < n.

(** A value of [Math.random()]. *)
Definition unitInterval (r : Q) : Prop := (0 <= r)%Q /\ (r < 1)%Q.

(** The snake is not empty, its cells are pairwise distinct, and the score
    counts ten for each segment after the first. *)
Definition wellFormed (s : State) : Prop :=
  snake s <> [] /\ NoDup (map cellOf (snake s)) /\
  score s = 10 * (Z.of_nat (List.length (snake s)) - 1).

(** ** Draws of the food placement *)

(** The cell that round [k] of a tape draws, rounds counted from 0. *)
Fixpoint roundCell (n : Z) (tape : list Q) (k : nat) : option Point :=
  match tape with
  | rx :: ry :: rest =>
      match k with
      | O => Some {| px := randomIndex rx n; py := randomIndex ry n |}
      | S k' => roundCell n rest k'
      end
  | _ => None
  end.

(** The cells of the grid, column by column. *)
Definition axis (n : Z) : list Z := map Z.of_nat (seq 0 (Z.to_nat n)).

Definition gridCells (n : Z) : list Point :=
  flat_map (fun cx => map (fun cy => {| px := cx; py := cy |}) (axis n))
           (axis n).

(** The cells of the grid that the snake covers. *)
Definition onSnake (body : list Segment) (c : Point) : bool :=
  occupies body (px c) (py c).

Definition occupiedCells (n : Z) (body : list Segment) : list Point :=
  filter (onSnake body) (gridCells n).

(** A tape whose rounds draw the given cells: [Math.random()] returns
    [cx / n] where [Math.floor] is to give [cx]. *)
Fixpoint tapeOf (n : Z) (cells : list Point) : list Q :=
  match cells with
  | [] => []
  | c :: cells' =>
      (inject_Z (px c) / inject_Z n)%Q :: (inject_Z (py c) / inject_Z n)%Q
      :: tapeOf n cells'
  end.

(** All sequences of [k] cells taken from [cells]: with uniform draws each
    of them is as likely as any other to be what [k] rounds draw. *)
Fixpoint sequences {A : Type} (cells : list A) (k : nat) : list (list A) :=
  match k with
  | O => [[]]
  | S k' => flat_map (fun c => map (cons c) (sequences cells k')) cells
  end.

(** Whether the loop is still going round after the rounds that draw
    [cells]. *)
Definition stillDrawing (n : Z) (body : list Segment) (cells : list Point)
  : bool :=
  match generateFood n body (tapeOf n cells) with
  | None => true
  | Some _ => false
  end.

(** ** A driver for whole runs *)

(** What happens to an open game: the frame loop calls [updateGameState]
    at a time [now], with the values [Math.random()] then returns, or the
    user presses a key. *)
Inductive Event : Type :=
| Tick (now : Q) (tape : list Q)
| Key (now : Q) (key : string).

Fixpoint play (events : list Event) (s : State) : Result State :=
  match events with
  | [] => Ok s
  | Tick now tape :: more =>
      match updateGameState now s tape with
      | Ok (s', _) => play more s'
      | TypeError => TypeError
      | OutOfDraws => OutOfDraws
      end
  | Key now key :: more => play more (keyDownHandler now key s)
  end.

(** A game opened with settings [cfg] on a canvas of [size] pixels, and
    then driven by [events]. *)
Definition openAndPlay (cfg : SnakePluginSettings) (size : Z)
           (tape : list Q) (events : list Event) : Result State :=
  match onOpen cfg size tape with
  | Ok (s, _) => play events s
  | TypeError => TypeError
  | OutOfDraws => OutOfDraws
  end.

(** The value of [Math.random()] that makes [Math.floor] give [c] on the
    default grid of 20 cells. *)
Definition pick (c : Z) : Q := (inject_Z c / 20)%Q.

(** ** Concrete games *)

(** A segment as [updateGameState] builds it on a canvas with cells of 20
    pixels: at cell [(cx, cy)], coming from cell [(fromX, fromY)]. *)
Definition segment (cx cy fromX fromY : Z) : Segment :=
  {| x := cx; y := cy;
     actualX := Some (fromX * 20); actualY := Some (fromY * 20) |}.

(** The game right after [onOpen] with the default settings, the first
    food drawn at (11,10). *)
Definition opened : State :=
  {| snake := [ segment 10 10 10 10 ];
     food := {| px := 11; py := 10 |};
     direction := Right;
     nextDirection := Right;
     score := 0;
     cellSize := 20;
     gameOver := false;
     gameStarted := false;
     lastFrameTime := 0;
     moveInterval := 150;
     isPaused := false;
     lastMoveTime := 0;
     inputQueue := [];
     settings := DEFAULT_SETTINGS |}.

(** The same game later: the snake has eaten four times on its way right,
    then turned down and left, and the player has just pressed the up
    arrow. *)
Definition coilScript : list Event :=
  [ Key 0 "Enter";
    Tick 150 [pick 12; pick 10]; Tick 300 [pick 13; pick 10];
    Tick 450 [pick 14; pick 10]; Tick 600 [pick 0; pick 0];
    Key 610 "ArrowDown"; Tick 750 [];
    Key 760 "ArrowLeft"; Tick 900 [];
    Key 910 "ArrowUp" ].

Definition coiled : State :=
  {| snake := [ segment 13 11 14 11; segment 14 11 14 10;
                segment 14 10 13 10; segment 13 10 12 10;
                segment 12 10 11 10 ];
     food := {| px := 0; py := 0 |};
     direction := Left;
     nextDirection := Right;
     score := 40;
     cellSize := 20;
     gameOver := false;
     gameStarted := true;
     lastFrameTime := 0;
     moveInterval := 142;
     isPaused := false;
     lastMoveTime := 900;
     inputQueue := [Up];
     settings := DEFAULT_SETTINGS |}.

(** The same settings and canvas: the food is at (5,5) and the snake has
    gone right from the centre to the last column. *)
Definition edgeScript : list Event :=
  [ Key 0 "Enter";
    Tick 150 []; Tick 300 []; Tick 450 []; Tick 600 []; Tick 750 [];
    Tick 900 []; Tick 1050 []; Tick 1200 []; Tick 1350 [] ].

Definition atRightEdge : State :=
  {| snake := [ segment 19 10 18 10 ];
     food := {| px := 5; py := 5 |};
     direction := Right;
     nextDirection := Right;
     score := 0;
     cellSize := 20;
     gameOver := false;
     gameStarted := true;
     lastFrameTime := 0;
     moveInterval := 150;
     isPaused := false;
     lastMoveTime := 1350;
     inputQueue := [];
     settings := DEFAULT_SETTINGS |}.

(** A game that starts at 60 ms per move and is to get 7 ms faster with
    each food: both values are on the sliders of the settings tab. The
    snake has eaten twice. *)
Definition fastSettings : SnakePluginSettings :=
  {| highScore := 0; gameSpeed := 60; gridSize := 20; speedIncrease := 7 |}.

Definition fastScript : list Event :=
  [ Key 0 "Enter"; Tick 60 [pick 12; pick 10]; Tick 120 [pick 0; pick 0] ].

Definition fastGame : State :=
  {| snake := [ segment 12 10 11 10; segment 11 10 10 10;
                segment 10 10 10 10 ];
     food := {| px := 0; py := 0 |};
     direction := Right;
     nextDirection := Right;
     score := 20;
     cellSize := 20;
     gameOver := false;
     gameStarted := true;
     lastFrameTime := 0;
     moveInterval := 46;
     isPaused := false;
     lastMoveTime := 120;
     inputQueue := [];
     settings := fastSettings |}.

(** What a run keeps of its settings, where its snake is, and how short
    its move interval can get. *)
Definition settingsKept (cfg : SnakePluginSettings) (s : State) : Prop :=
  gridSize (settings s) = gridSize cfg /\
  gameSpeed (settings s) = gameSpeed cfg /\
  speedIncrease (settings s) = speedIncrease cfg.

Definition snakeInGrid (s : State) : Prop :=
  Forall (inGrid (gridSize (settings s))) (map cellOf (snake s)).

Definition intervalBounded (s : State) : Prop :=
  Z.min (gameSpeed (settings s)) (51 - speedIncrease (settings s))
  <= moveInterval s.

(** ** The earlier revision with walls

    The repository keeps earlier revisions of [main.ts]. The one before the
    current has the same modal with a different tick: the direction comes
    from [nextDirection] instead of a queue, the head is not wrapped, and
    the game ends at the walls of the canvas. [this.gridSize] is the size
    of a cell in pixels, and the grid has [canvas.width / this.gridSize]
    columns: there is no setting for the number of cells. *)
Module Earlier.

Record State : Type := {
  snake : list Segment;
  food : Point;
  direction : Direction;
  nextDirection : Direction;
  score : Z;
  gridSize : Z;
  gameOver : bool;
  isPaused : bool;
  moveInterval : Z;
  canvasWidth : Z;
  canvasHeight : Z;
  highScore : Z
}.

(** [Math.floor(Math.random() * (canvas.width / this.gridSize))]. *)
Definition randomIndex (r : Q) (extent cell : Z) : Z :=
  Qfloor (r * (inject_Z extent / inject_Z cell)).

Fixpoint generateFood (s : State) (body : list Segment) (tape : list Q)
  : option (Point * list Q) :=
  match tape with
  | rx :: ry :: rest =>
      let cx := randomIndex rx (canvasWidth s) (gridSize s) in
      let cy := randomIndex ry (canvasHeight s) (gridSize s) in
      if occupies body cx cy then generateFood s body rest
      else Some ({| px := cx; py := cy |}, rest)
  | _ => None
  end.

(** [head.y--], [head.y++], [head.x--], [head.x++]. *)
Definition moveHead (d : Direction) (head : Segment) : Segment :=
  match d with
  | Up => {| x := x head; y := y head - 1;
             actualX := actualX head; actualY := actualY head |}
  | Down => {| x := x head; y := y head + 1;
               actualX := actualX head; actualY := actualY head |}
  | Left => {| x := x head - 1; y := y head;
               actualX := actualX head; actualY := actualY head |}
  | Right => {| x := x head + 1; y := y head;
                actualX := actualX head; actualY := actualY head |}
  end.

(** [head.x < 0 || head.x >= canvas.width / gridSize || head.y < 0 ||
    head.y >= canvas.height / gridSize]. *)
Definition hitsWall (s : State) (head : Segment) : bool :=
  (x head <? 0)
  || Qle_bool (inject_Z (canvasWidth s) / inject_Z (gridSize s))
              (inject_Z (x head))
  || (y head <? 0)
  || Qle_bool (inject_Z (canvasHeight s) / inject_Z (gridSize s))
              (inject_Z (y head)).

Definition endGame (s : State) : State :=
  {| snake := snake s; food := food s; direction := direction s;
     nextDirection := nextDirection s; score := score s;
     gridSize := gridSize s; gameOver := true; isPaused := isPaused s;
     moveInterval := moveInterval s; canvasWidth := canvasWidth s;
     canvasHeight := canvasHeight s;
     highScore := if score s >? highScore s then score s else highScore s |}.

Definition updateGameState (s : State) (tape : list Q)
  : Result (State * list Q) :=
  if gameOver s || isPaused s then Ok (s, tape)
  else
    (* Update direction *)
    let d := nextDirection s in
    let s1 := {| snake := snake s; food := food s; direction := d;
                 nextDirection := nextDirection s; score := score s;
                 gridSize := gridSize s; gameOver := gameOver s;
                 isPaused := isPaused s; moveInterval := moveInterval s;
                 canvasWidth := canvasWidth s;
                 canvasHeight := canvasHeight s;
                 highScore := highScore s |} in
    match snake s1 with
    | [] => TypeError
    | first :: _ =>
        (* Move snake *)
        let head := moveHead d first in
        (* Check collision with walls *)
        if hitsWall s1 head then Ok (endGame s1, tape)
        (* Check collision with self *)
        else if occupies (snake s1) (x head) (y head)
        then Ok (endGame s1, tape)
        else
          let newHead := {| x := x head; y := y head;
                            actualX := Some (x first * gridSize s1);
                            actualY := Some (y first * gridSize s1) |} in
          let grown := newHead :: snake s1 in
          (* Check if food is eaten *)
          if (x head =? px (food s1)) && (y head =? py (food s1)) then
            match generateFood s1 grown tape with
            | None => OutOfDraws
            | Some (f, rest) =>
                Ok ({| snake := grown; food := f; direction := d;
                       nextDirection := nextDirection s1;
                       score := score s1 + 10;
                       gridSize := gridSize s1; gameOver := gameOver s1;
                       isPaused := isPaused s1;
                       (* Increase speed slightly *)
                       moveInterval := if moveInterval s1 >? 50
                                       then moveInterval s1 - 2
                                       else moveInterval s1;
                       canvasWidth := canvasWidth s1;
                       canvasHeight := canvasHeight s1;
                       highScore := highScore s1 |}, rest)
            end
          else
            Ok ({| snake := removelast grown; food := food s1;
                   direction := d; nextDirection := nextDirection s1;
                   score := score s1; gridSize := gridSize s1;
                   gameOver := gameOver s1; isPaused := isPaused s1;
                   moveInterval := moveInterval s1;
                   canvasWidth := canvasWidth s1;
                   canvasHeight := canvasHeight s1;
                   highScore := highScore s1 |}, tape)
    end.

End Earlier.

(** The earlier revision on its canvas of 400 pixels with cells of 20, the
    head in the last column and going right. *)
Definition earlierAtWall : Earlier.State :=
  {| Earlier.snake := [ segment 19 10 18 10 ];
     Earlier.food := {| px := 5; py := 5 |};
     Earlier.direction := Right;
     Earlier.nextDirection := Right;
     Earlier.score := 0;
     Earlier.gridSize := 20;
     Earlier.gameOver := false;
     Earlier.isPaused := false;
     Earlier.moveInterval := 150;
     Earlier.canvasWidth := 400;
     Earlier.canvasHeight := 400;
     Earlier.highScore := 0 |}.

(** ** The frame loop: [animate], and the key handler with its frames *)

(** [animate] without the drawing: the tick it runs when the move interval
    has passed, and whether it asks for another frame
    ([requestAnimationFrame]). *)
Definition animate (currentTime : Q) (s : State) (tape : list Q)
  : Result (State * list Q * bool) :=
  if negb (gameStarted s) || gameOver s then Ok (s, tape, false)
  else
    let timeSinceLastMove := (currentTime - lastMoveTime s)%Q in
    let updated :=
      if Qle_bool (inject_Z (moveInterval s)) timeSinceLastMove
      then updateGameState currentTime s tape
      else Ok (s, tape) in
    match updated with
    | Ok (s', rest) =>
        Ok (s', rest, negb (gameOver s') && negb (isPaused s'))
    | TypeError => TypeError
    | OutOfDraws => OutOfDraws
    end.

(** [startGame] and [togglePause] end with [this.animate()], a frame at
    time 0. [pressKey] is [keyDownHandler] with these frames; the result
    forgets whether another frame was asked for. *)
Definition firstFrame (s : State) (tape : list Q)
  : Result (State * list Q) :=
  match animate 0 s tape with
  | Ok (s', rest, _) => Ok (s', rest)
  | TypeError => TypeError
  | OutOfDraws => OutOfDraws
  end.

Definition pressKey (now : Q) (key : string) (s : State) (tape : list Q)
  : Result (State * list Q) :=
  if negb (gameStarted s) then
    if ((key =? "Enter") || (key =? " "))%string
    then firstFrame (startGame now s) tape
    else Ok (s, tape)
  else if (key =? "Escape")%string then
    let s1 := set_isPaused (negb (isPaused s)) s in
    if isPaused s1 then Ok (s1, tape)
    else firstFrame (set_lastMoveTime now s1) tape
  else if isPaused s then Ok (s, tape)
  else match keyDirection key with
       | Some newDirection => Ok (offer newDirection s, tape)
       | None => Ok (s, tape)
       end.

(** ** Notions for the further properties *)

(** No direction of the list is the reverse of the one before it, the
    first being compared with [from]. *)
Fixpoint noReverse (from : Direction) (q : list Direction) : bool :=
  match q with
  | [] => true
  | d :: q' => negb (Direction_eqb d (opposite from)) && noReverse d q'
  end.

(** The queue holds no reversal, and neither does it after the current
    direction once the snake has a second segment. *)
Definition queueInOrder (s : State) : Prop :=
  match inputQueue s with
  | [] => True
  | d :: q => noReverse d q = true
  end /\
  ((2 <= List.length (snake s))%nat ->
   noReverse (direction s) (inputQueue s) = true).

(** The second segment is one step behind the head, against the current
    direction. *)
Definition neckBehind (s : State) : Prop :=
  match snake s with
  | head :: neck :: _ =>
      x head = (x neck + dx (direction s)) mod gridSize (settings s) /\
      y head = (y neck + dy (direction s)) mod gridSize (settings s)
  | _ => True
  end.

(** The food is on the grid, and off the snake. *)
Definition foodInGrid (s : State) : Prop :=
  inGrid (gridSize (settings s)) (food s).

Definition foodOffSnake (s : State) : Prop :=
  onSnake (snake s) (food s) = false.

(** The callbacks of an open game: a frame of the frame loop, or a key
    press, each with the time and with the values [Math.random()] returns
    during it. *)
Inductive Callback : Type :=
| Frame (now : Q) (tape : list Q)
| Press (now : Q) (key : string) (tape : list Q).

Fixpoint run (calls : list Callback) (s : State) : Result State :=
  match calls with
  | [] => Ok s
  | Frame now tape :: more =>
      match animate now s tape with
      | Ok (s', _, _) => run more s'
      | TypeError => TypeError
      | OutOfDraws => OutOfDraws
      end
  | Press now key tape :: more =>
      match pressKey now key s tape with
      | Ok (s', _) => run more s'
      | TypeError => TypeError
      | OutOfDraws => OutOfDraws
      end
  end.

Definition openAndRun (cfg : SnakePluginSettings) (size : Z)
           (tape : list Q) (calls : list Callback) : Result State :=
  match onOpen cfg size tape with
  | Ok (s, _) => run calls s
  | TypeError => TypeError
  | OutOfDraws => OutOfDraws
  end.

(** All values of [Math.random()] in the callbacks are in [0, 1). *)
Definition validTapes (calls : list Callback) : Prop :=
  Forall (fun c => match c with
                   | Frame _ tape => Forall unitInterval tape
                   | Press _ _ tape => Forall unitInterval tape
                   end) calls.

(** Whether the loop returns the cell [c] on the rounds that draw
    [cells]. *)
Definition returnsCell (n : Z) (body : list Segment) (c : Point)
           (cells : list Point) : bool :=
  match generateFood n body (tapeOf n cells) with
  | Some (f, _) => (px f =? px c) && (py f =? py c)
  | None => false
  end.

(** The callbacks hold no press of the Escape key. *)
Definition noEscape (calls : list Callback) : Prop :=
  Forall (fun c => match c with
                   | Frame _ _ => True
                   | Press _ key _ => (key =? "Escape")%string = false
                   end) calls.

(** The callbacks that lead to the coiled game: the frames come when the
    move interval has passed. *)
Definition coilCalls : list Callback :=
  [ Press 0 "Enter" [];
    Frame 150 [pick 12; pick 10]; Frame 300 [pick 13; pick 10];
    Frame 450 [pick 14; pick 10]; Frame 600 [pick 0; pick 0];
    Press 610 "ArrowDown" []; Frame 750 [];
    Press 760 "ArrowLeft" []; Frame 900 [];
    Press 910 "ArrowUp" [] ].

(** The coiled game after the tick that serves the up arrow: the head ran
    into the snake. *)
Definition crashed : State :=
  {| snake := snake coiled;
     food := {| px := 0; py := 0 |};
     direction := Up;
     nextDirection := Right;
     score := 40;
     cellSize := 20;
     gameOver := true;
     gameStarted := true;
     lastFrameTime := 0;
     moveInterval := 142;
     isPaused := false;
     lastMoveTime := 900;
     inputQueue := [];
     settings := set_highScore 40 DEFAULT_SETTINGS |}.

(** The opened game after the Enter key at time 0. *)
Definition started : State := startGame 0 opened.

(** The started game after the frame at time 150, in which the snake ate
    the food at (11,10) and the next food was drawn at (3,4). *)
Definition fed : State :=
  {| snake := [ segment 11 10 10 10; segment 10 10 10 10 ];
     food := {| px := 3; py := 4 |};
     direction := Right;
     nextDirection := Right;
     score := 10;
     cellSize := 20;
     gameOver := false;
     gameStarted := true;
     lastFrameTime := 0;
     moveInterval := 148;
     isPaused := false;
     lastMoveTime := 150;
     inputQueue := [];
     settings := DEFAULT_SETTINGS |}.

(** Whether two cells are the same. *)
Definition sameCell (d c : Point) : bool :=
  (px d =? px c) && (py d =? py c).

(** Cell [a] is one step from cell [b] on the grid, wrapping at the
    borders; and the cells of a list are one step apart each from the
    next. *)
Definition oneStep (n : Z) (a b : Point) : Prop :=
  exists d, px a = (px b + dx d) mod n /\ py a = (py b + dy d) mod n.

Fixpoint connected (n : Z) (cells : list Point) : Prop :=
  match cells with
  | a :: rest =>
      match rest with
      | b :: _ => oneStep n a b /\ connected n rest
      | [] => True
      end
  | [] => True
  end.

(** In the earlier revision: the head is off the canvas. *)
Definition earlierOutside (s : Earlier.State) (head : Segment) : Prop :=
  x head < 0 \/ Earlier.canvasWidth s <= x head * Earlier.gridSize s \/
  y head < 0 \/ Earlier.canvasHeight s <= y head * Earlier.gridSize s.

(** * Properties *)

(** ** Lists of segments *)

Lemma occupies_In (body : list Segment) (cx cy : Z) :
  occupies body cx cy = true <->
  In {| px := cx; py := cy |} (map cellOf body).
Proof.
  unfold occupies. rewrite existsb_exists, in_map_iff. split.
  - intros [seg [Hin Heq]]. exists seg. split; [|exact Hin].
    apply andb_true_iff in Heq. destruct Heq as [Hx Hy].
    apply Z.eqb_eq in Hx. apply Z.eqb_eq in Hy.
    unfold cellOf. now rewrite Hx, Hy.
  - intros [seg [Heq Hin]]. exists seg. split; [exact Hin|].
    unfold cellOf in Heq. injection Heq as Hx Hy.
    now rewrite Hx, Hy, !Z.eqb_refl.
Qed.

Lemma occupies_not_In (body : list Segment) (cx cy : Z) :
  occupies body cx cy = false <->
  ~ In {| px := cx; py := cy |} (map cellOf body).
Proof.
  rewrite <- occupies_In. destruct (occupies body cx cy); split; congruence.
Qed.

Lemma map_removelast {A B : Type} (f : A -> B) (l : list A) :
  map f (removelast l) = removelast (map f l).
Proof.
  induction l as [|a [|b l] IH]; simpl; try reflexivity.
  simpl in IH. now rewrite IH.
Qed.

Lemma In_removelast {A : Type} (a : A) (l : list A) :
  In a (removelast l) -> In a l.
Proof.
  induction l as [|b [|c l] IH]; simpl; intros H; try contradiction.
  destruct H as [H|H]; [now left | right; apply IH; exact H].
Qed.

Lemma NoDup_removelast {A : Type} (l : list A) :
  NoDup l -> NoDup (removelast l).
Proof.
  induction l as [|a l IH]; intros H; [constructor|].
  destruct l as [|b l]; [constructor|].
  change (removelast (a :: b :: l)) with (a :: removelast (b :: l)).
  inversion H as [|? ? Hnotin Hnd]; subst. constructor.
  - intros Hin. apply Hnotin. now apply In_removelast.
  - now apply IH.
Qed.

Lemma length_removelast_cons {A : Type} (a : A) (l : list A) :
  List.length (removelast (a :: l)) = List.length l.
Proof.
  revert a. induction l as [|b l IH]; intros a; [reflexivity|].
  change (removelast (a :: b :: l)) with (a :: removelast (b :: l)).
  change (S (List.length (removelast (b :: l))) = S (List.length l)).
  now rewrite IH.
Qed.

Lemma removelast_cons_nonempty {A : Type} (a b : A) (l : list A) :
  removelast (a :: b :: l) <> [].
Proof. discriminate. Qed.

(** ** The tick, case by case *)

Lemma served_direction (s : State) : direction (served s) = servedDirection s.
Proof. unfold served, servedDirection. now destruct (inputQueue s). Qed.

Lemma served_fields (s : State) :
  snake (served s) = snake s /\ food (served s) = food s /\
  score (served s) = score s /\ moveInterval (served s) = moveInterval s /\
  settings (served s) = settings s /\ cellSize (served s) = cellSize s /\
  gameOver (served s) = gameOver s /\ isPaused (served s) = isPaused s.
Proof. unfold served. destruct (inputQueue s); simpl; repeat split. Qed.

(** A tick of a game that is over or paused does nothing. *)
Lemma tick_idle (now : Q) (s : State) (tape : list Q) :
  gameOver s || isPaused s = true ->
  updateGameState now s tape = Ok (s, tape).
Proof. intros H. unfold updateGameState. now rewrite H. Qed.

(** A tick whose new head is on the snake ends the game. *)
Lemma tick_collision (now : Q) (s : State) (tape : list Q) (head : Segment) :
  gameOver s = false -> isPaused s = false ->
  movedHead s = Some head -> hitsSnake s head = true ->
  updateGameState now s tape
  = Ok (showGameOverMenu (set_gameOver true (served s)), tape).
Proof.
  intros Hover Hpause Hhead Hhit.
  unfold updateGameState. rewrite Hover, Hpause. simpl orb. cbv iota.
  fold (served s).
  destruct (served_fields s) as (Hsn & _ & _ & _ & Hset & _).
  unfold movedHead in Hhead. unfold hitsSnake in Hhit.
  rewrite Hsn, Hset, served_direction.
  destruct (snake s) as [|first body]; [discriminate|].
  injection Hhead as <-. now rewrite Hhit.
Qed.

(** A tick whose new head is free and not the food moves the snake. *)
Lemma tick_move (now : Q) (s : State) (tape : list Q) (head : Segment) :
  gameOver s = false -> isPaused s = false ->
  movedHead s = Some head -> hitsSnake s head = false ->
  onFood s head = false ->
  updateGameState now s tape
  = Ok (set_lastMoveTime now
          (set_snake (removelast (committedHead s head :: snake s))
             (served s)), tape).
Proof.
  intros Hover Hpause Hhead Hhit Hfood.
  unfold updateGameState. rewrite Hover, Hpause. simpl orb. cbv iota.
  fold (served s).
  destruct (served_fields s) as (Hsn & Hfd & _ & _ & Hset & Hcs & _).
  unfold movedHead in Hhead. unfold hitsSnake in Hhit.
  unfold onFood in Hfood. unfold committedHead.
  rewrite Hsn, Hset, served_direction.
  destruct (snake s) as [|first body] eqn:Hs; [discriminate|].
  injection Hhead as <-. rewrite Hhit.
  cbv zeta. unfold set_snake at 1 2. cbn [food snake].
  rewrite Hfd, Hfood. cbn [hd_error option_map]. rewrite Hcs.
  unfold set_snake. cbn. reflexivity.
Qed.

(** A tick whose new head is free and is the food grows the snake, once the
    new food is placed. *)
Lemma tick_eat (now : Q) (s : State) (tape : list Q) (head : Segment) :
  gameOver s = false -> isPaused s = false ->
  movedHead s = Some head -> hitsSnake s head = false ->
  onFood s head = true ->
  updateGameState now s tape
  = match generateFood (gridSize (settings s))
            (committedHead s head :: snake s) tape with
    | None => OutOfDraws
    | Some (f, rest) =>
        Ok (set_lastMoveTime now
              (speedUp
                 (set_food f
                    (set_score (score s + 10)
                       (set_snake (committedHead s head :: snake s)
                          (served s))))), rest)
    end.
Proof.
  intros Hover Hpause Hhead Hhit Hfood.
  unfold updateGameState. rewrite Hover, Hpause. simpl orb. cbv iota.
  fold (served s).
  destruct (served_fields s) as (Hsn & Hfd & Hsc & _ & Hset & Hcs & _).
  unfold movedHead in Hhead. unfold hitsSnake in Hhit.
  unfold onFood in Hfood. unfold committedHead.
  rewrite Hsn, Hset, served_direction.
  destruct (snake s) as [|first body] eqn:Hs; [discriminate|].
  injection Hhead as <-. rewrite Hhit.
  cbv zeta. unfold set_snake at 1 2. cbn [food snake].
  rewrite Hfd, Hfood. cbn [hd_error option_map]. rewrite Hcs.
  unfold set_score at 1. cbn [snake].
  destruct (generateFood _ _ tape) as [[f rest]|]; [|reflexivity].
  unfold speedUp. cbn [settings moveInterval score set_food set_score set_snake].
  rewrite Hsc. reflexivity.
Qed.

(** A tick of a game without a snake fails. *)
Lemma tick_no_snake (now : Q) (s : State) (tape : list Q) :
  gameOver s = false -> isPaused s = false -> snake s = [] ->
  updateGameState now s tape = TypeError.
Proof.
  intros Hover Hpause Hs.
  unfold updateGameState. rewrite Hover, Hpause. simpl orb. cbv iota.
  fold (served s).
  destruct (served_fields s) as (Hsn & _). now rewrite Hsn, Hs.
Qed.

(** The state a tick ends the game with, moves the snake to, and grows the
    snake to. *)
Lemma tick_inv (now : Q) (s : State) (tape : list Q) (s' : State)
      (rest : list Q) :
  updateGameState now s tape = Ok (s', rest) ->
  (gameOver s || isPaused s = true /\ s' = s /\ rest = tape)
  \/ exists head,
       gameOver s = false /\ isPaused s = false /\ movedHead s = Some head /\
       ((hitsSnake s head = true /\ rest = tape /\
         s' = showGameOverMenu (set_gameOver true (served s)))
        \/ (hitsSnake s head = false /\ onFood s head = false /\
            rest = tape /\
            s' = set_lastMoveTime now
                   (set_snake (removelast (committedHead s head :: snake s))
                      (served s)))
        \/ (hitsSnake s head = false /\ onFood s head = true /\
            exists f,
              generateFood (gridSize (settings s))
                (committedHead s head :: snake s) tape = Some (f, rest) /\
              s' = set_lastMoveTime now
                     (speedUp
                        (set_food f
                           (set_score (score s + 10)
                              (set_snake (committedHead s head :: snake s)
                                 (served s))))))).
Proof.
  intros Htick.
  destruct (gameOver s) eqn:Hover.
  { left. rewrite tick_idle in Htick by (now rewrite Hover).
    injection Htick as <- <-. auto. }
  destruct (isPaused s) eqn:Hpause.
  { left. rewrite tick_idle in Htick by (now rewrite Hover, Hpause).
    injection Htick as <- <-. auto. }
  right.
  destruct (movedHead s) as [head|] eqn:Hhead.
  2:{ unfold movedHead in Hhead.
      destruct (snake s) eqn:Hs; [|discriminate].
      now rewrite tick_no_snake in Htick. }
  exists head. repeat split.
  destruct (hitsSnake s head) eqn:Hhit.
  { left. rewrite (tick_collision now s tape head) in Htick by assumption.
    injection Htick as <- <-. auto. }
  right.
  destruct (onFood s head) eqn:Hfood.
  - right. rewrite (tick_eat now s tape head) in Htick by assumption.
    destruct (generateFood _ _ tape) as [[f rest']|] eqn:Hgen;
      [|discriminate].
    injection Htick as <- <-. repeat split. exists f. auto.
  - left. rewrite (tick_move now s tape head) in Htick by assumption.
    injection Htick as <- <-. auto.
Qed.

(** ** What the operations keep *)

Lemma showGameOverMenu_fields (s : State) :
  snake (showGameOverMenu s) = snake s /\
  food (showGameOverMenu s) = food s /\
  score (showGameOverMenu s) = score s /\
  moveInterval (showGameOverMenu s) = moveInterval s /\
  gameOver (showGameOverMenu s) = gameOver s /\
  gridSize (settings (showGameOverMenu s)) = gridSize (settings s) /\
  gameSpeed (settings (showGameOverMenu s)) = gameSpeed (settings s) /\
  speedIncrease (settings (showGameOverMenu s)) = speedIncrease (settings s).
Proof.
  unfold showGameOverMenu.
  destruct (score s >? highScore (settings s)); simpl; repeat split.
Qed.

Lemma speedUp_fields (s : State) :
  snake (speedUp s) = snake s /\ food (speedUp s) = food s /\
  score (speedUp s) = score s /\ settings (speedUp s) = settings s /\
  gameOver (speedUp s) = gameOver s.
Proof.
  unfold speedUp.
  destruct ((speedIncrease (settings s) >? 0) && (moveInterval s >? 50));
    simpl; repeat split.
Qed.

Lemma offer_fields (d : Direction) (s : State) :
  snake (offer d s) = snake s /\ food (offer d s) = food s /\
  score (offer d s) = score s /\ settings (offer d s) = settings s /\
  moveInterval (offer d s) = moveInterval s /\
  direction (offer d s) = direction s /\
  gameOver (offer d s) = gameOver s /\ isPaused (offer d s) = isPaused s.
Proof.
  unfold offer.
  destruct (isValidDirection s d && _); simpl; repeat split.
Qed.

Lemma keyDownHandler_fields (now : Q) (key : string) (s : State) :
  snake (keyDownHandler now key s) = snake s /\
  food (keyDownHandler now key s) = food s /\
  score (keyDownHandler now key s) = score s /\
  settings (keyDownHandler now key s) = settings s /\
  moveInterval (keyDownHandler now key s) = moveInterval s.
Proof.
  unfold keyDownHandler, startGame, togglePause.
  destruct (negb (gameStarted s)).
  { destruct ((key =? "Enter") || (key =? " "))%string; simpl; repeat split. }
  destruct (key =? "Escape")%string.
  { simpl. destruct (negb (isPaused s)); simpl; repeat split. }
  destruct (isPaused s); [repeat split|].
  destruct (keyDirection key) as [d|]; [|repeat split].
  destruct (offer_fields d s) as (? & ? & ? & ? & ? & _). auto.
Qed.

Lemma adjustCanvasSize_fields (size : Z) (s : State) (tape : list Q)
      (s' : State) (rest : list Q) :
  adjustCanvasSize size s tape = Ok (s', rest) ->
  map cellOf (snake s') = map cellOf (snake s) /\
  score s' = score s /\ settings s' = settings s /\
  moveInterval s' = moveInterval s.
Proof.
  unfold adjustCanvasSize. cbv zeta.
  assert (Hmap : forall c (l : list Segment),
             map cellOf
               (map (fun segment =>
                       {| x := x segment; y := y segment;
                          actualX := Some (x segment * c);
                          actualY := Some (y segment * c) |}) l)
             = map cellOf l).
  { intros c l. rewrite map_map. apply map_ext. reflexivity. }
  destruct (_ || _).
  - destruct (generateFood _ _ tape) as [[f rest']|]; [|discriminate].
    intros H. injection H as <- <-. simpl. rewrite Hmap. repeat split.
  - intros H. injection H as <- <-. simpl. rewrite Hmap. repeat split.
Qed.

(** ** The invariant of a run *)

Lemma wellFormed_initializeGame (s : State) : wellFormed (initializeGame s).
Proof.
  unfold wellFormed, initializeGame. simpl. repeat split.
  - discriminate.
  - constructor; [intros []|constructor].
Qed.

Lemma wellFormed_tick (now : Q) (s : State) (tape : list Q) (s' : State)
      (rest : list Q) :
  wellFormed s -> updateGameState now s tape = Ok (s', rest) ->
  wellFormed s'.
Proof.
  intros (Hne & Hnd & Hsc) Htick.
  destruct (served_fields s) as (Hsn & Hfd & Hscs & _).
  apply tick_inv in Htick.
  destruct Htick as [(_ & -> & _)|(head & _ & _ & Hhead & Hcase)];
    [repeat split; assumption|].
  assert (Hfresh : hitsSnake s head = false ->
                   NoDup (map cellOf (committedHead s head :: snake s))).
  { intros Hhit. simpl. constructor; [|exact Hnd].
    unfold hitsSnake in Hhit. apply occupies_not_In in Hhit. exact Hhit. }
  destruct Hcase as [(_ & _ & ->)|[(Hhit & _ & _ & ->)|(Hhit & _ & f & _ & ->)]].
  - destruct (showGameOverMenu_fields (set_gameOver true (served s)))
      as (H1 & _ & H3 & _).
    unfold wellFormed. rewrite H1, H3. simpl. rewrite Hsn, Hscs.
    repeat split; assumption.
  - unfold wellFormed. cbn [snake score set_lastMoveTime set_snake].
    rewrite Hscs.
    destruct (snake s) as [|first body] eqn:Hs; [contradiction|].
    repeat split.
    + apply removelast_cons_nonempty.
    + rewrite map_removelast. apply NoDup_removelast.
      apply Hfresh. exact Hhit.
    + rewrite length_removelast_cons. exact Hsc.
  - destruct (speedUp_fields
                (set_food f
                   (set_score (score s + 10)
                      (set_snake (committedHead s head :: snake s)
                         (served s))))) as (H1 & _ & H3 & _).
    unfold wellFormed. cbn [snake score set_lastMoveTime].
    rewrite H1, H3. cbn [snake score set_food set_score set_snake].
    repeat split.
    + discriminate.
    + apply Hfresh. exact Hhit.
    + rewrite Hsc. cbn [List.length]. lia.
Qed.

Lemma reachable_wellFormed (cfg : SnakePluginSettings) (s : State) :
  reachable cfg s -> wellFormed s.
Proof.
  induction 1 as [size tape s rest Hopen
                 |now tape s s' rest _ IH Htick
                 |d s _ IH|now key s _ IH|s _ IH|s _ IH].
  - unfold onOpen in Hopen.
    destruct (generateFood _ _ tape) as [[f rest']|]; [|discriminate].
    apply adjustCanvasSize_fields in Hopen.
    destruct Hopen as (Hmap & Hscore & _).
    unfold wellFormed. rewrite Hmap, Hscore.
    assert (Hlen : List.length (snake s)
                   = List.length (map cellOf (snake s)))
      by (symmetry; apply length_map).
    rewrite Hlen, Hmap. simpl. repeat split.
    + intros Hs. rewrite Hs in Hmap. discriminate.
    + constructor; [intros []|constructor].
  - eapply wellFormed_tick; eassumption.
  - destruct (offer_fields d s) as (H1 & _ & H3 & _).
    unfold wellFormed. now rewrite H1, H3.
  - destruct (keyDownHandler_fields now key s) as (H1 & _ & H3 & _).
    unfold wellFormed. now rewrite H1, H3.
  - apply wellFormed_initializeGame.
  - apply wellFormed_initializeGame.
Qed.

(** ** The draws: [Math.floor(Math.random() * n)] *)

Lemma inject_Z_pos (n : Z) : 0 < n -> (0 < inject_Z n)%Q.
Proof.
  intros Hn. change 0%Q with (inject_Z 0). rewrite <- Zlt_Qlt. exact Hn.
Qed.

Lemma randomIndex_range (r : Q) (n : Z) :
  0 < n -> unitInterval r -> 0 <= randomIndex r n < n.
Proof.
  intros Hn [Hr0 Hr1]. unfold randomIndex.
  assert (Hn' : (0 < inject_Z n)%Q) by (apply inject_Z_pos; exact Hn).
  split.
  - change 0 with (Qfloor 0). apply Qfloor_resp_le.
    apply Qmult_le_0_compat; [exact Hr0|]. now apply Qlt_le_weak.
  - rewrite Zlt_Qlt.
    apply Qle_lt_trans with (r * inject_Z n)%Q; [apply Qfloor_le|].
    rewrite <- (Qmult_1_l (inject_Z n)) at 2.
    now apply Qmult_lt_compat_r.
Qed.

Lemma randomIndex_exact (c n : Z) :
  0 < n -> randomIndex (inject_Z c / inject_Z n) n = c.
Proof.
  intros Hn. unfold randomIndex.
  assert (Hn' : ~ (inject_Z n == 0)%Q).
  { intros H. apply (Qlt_irrefl 0).
    rewrite <- H at 2. apply inject_Z_pos. exact Hn. }
  assert (Heq : (inject_Z c / inject_Z n * inject_Z n == inject_Z c)%Q).
  { rewrite Qmult_comm. now apply Qmult_div_r. }
  rewrite Heq. apply Qfloor_Z.
Qed.

Lemma unitInterval_div (c n : Z) :
  0 <= c < n -> unitInterval (inject_Z c / inject_Z n).
Proof.
  intros [Hc0 Hcn].
  assert (Hn' : (0 < inject_Z n)%Q) by (apply inject_Z_pos; lia).
  split.
  - apply Qle_shift_div_l; [exact Hn'|].
    rewrite Qmult_0_l. change 0%Q with (inject_Z 0).
    rewrite <- Zle_Qle. exact Hc0.
  - apply Qlt_shift_div_r; [exact Hn'|].
    rewrite Qmult_1_l. rewrite <- Zlt_Qlt. exact Hcn.
Qed.

(** ** [generateFood] *)

(** The loop returns the first drawn cell that is off the snake. *)
Lemma generateFood_first_free (n : Z) (body : list Segment) (k : nat) :
  forall (tape : list Q) (c : Point),
    roundCell n tape k = Some c -> onSnake body c = false ->
    exists f rest, generateFood n body tape = Some (f, rest).
Proof.
  induction k as [|k IH]; intros tape c Hcell Hfree.
  - destruct tape as [|rx [|ry rest]]; try discriminate.
    simpl in Hcell. injection Hcell as <-.
    unfold onSnake in Hfree. simpl in Hfree.
    exists {| px := randomIndex rx n; py := randomIndex ry n |}, rest.
    simpl. now rewrite Hfree.
  - destruct tape as [|rx [|ry rest]]; try discriminate.
    simpl in Hcell. simpl.
    destruct (occupies body (randomIndex rx n) (randomIndex ry n)).
    + eapply IH; eassumption.
    + eauto.
Qed.

(** What the loop returns is off the snake, and was drawn. *)
Lemma generateFood_sound (n : Z) (body : list Segment) :
  forall (tape : list Q) (f : Point) (rest : list Q),
    generateFood n body tape = Some (f, rest) ->
    onSnake body f = false /\
    exists rx ry, In rx tape /\ In ry tape /\
                  f = {| px := randomIndex rx n; py := randomIndex ry n |}.
Proof.
  fix IH 1. intros tape f rest Hgen.
  destruct tape as [|rx [|ry tape']]; try discriminate.
  simpl in Hgen.
  destruct (occupies body (randomIndex rx n) (randomIndex ry n)) eqn:Hocc.
  - destruct (IH tape' f rest Hgen) as (Hfree & rx' & ry' & Hx & Hy & Hf).
    split; [exact Hfree|].
    exists rx', ry'. repeat split; [right; right; exact Hx
                                    |right; right; exact Hy|exact Hf].
  - injection Hgen as <- <-. split; [exact Hocc|].
    exists rx, ry. repeat split; [left; reflexivity
                                  |right; left; reflexivity].
Qed.

(** ** Counting the draws that keep the loop going *)

Lemma In_axis (n c : Z) : In c (axis n) <-> 0 <= c < n.
Proof.
  unfold axis. rewrite in_map_iff. split.
  - intros [i [<- Hi]]. apply in_seq in Hi. lia.
  - intros Hc. exists (Z.to_nat c). split; [lia|]. apply in_seq. lia.
Qed.

Lemma In_gridCells (n : Z) (c : Point) : In c (gridCells n) <-> inGrid n c.
Proof.
  unfold gridCells, inGrid. rewrite in_flat_map. split.
  - intros [cx [Hx Hin]]. apply in_map_iff in Hin.
    destruct Hin as [cy [<- Hy]]. simpl.
    apply In_axis in Hx. apply In_axis in Hy. auto.
  - intros [Hx Hy]. exists (px c). split; [now apply In_axis|].
    apply in_map_iff. exists (py c). split; [now destruct c|].
    now apply In_axis.
Qed.

Lemma length_gridCells (n : Z) :
  List.length (gridCells n) = (Z.to_nat n * Z.to_nat n)%nat.
Proof.
  assert (Hlen : List.length (axis n) = Z.to_nat n).
  { unfold axis. now rewrite length_map, length_seq. }
  assert (Hprod : forall l1 l2 : list Z,
             List.length
               (flat_map (fun cx => map (fun cy => {| px := cx; py := cy |})
                                        l2) l1)
             = (List.length l1 * List.length l2)%nat).
  { intros l1 l2. induction l1 as [|a l1 IH]; [reflexivity|].
    cbn [flat_map List.length]. rewrite length_app, length_map, IH. lia. }
  unfold gridCells. now rewrite Hprod, Hlen.
Qed.

Lemma stillDrawing_forallb (n : Z) (body : list Segment)
      (cells : list Point) :
  0 < n -> stillDrawing n body cells = forallb (onSnake body) cells.
Proof.
  intros Hn. unfold stillDrawing.
  induction cells as [|c cells IH]; [reflexivity|].
  cbn [tapeOf generateFood forallb].
  rewrite !randomIndex_exact by exact Hn.
  unfold onSnake at 1.
  destruct (occupies body (px c) (py c)); [exact IH|reflexivity].
Qed.

Lemma filter_forallb_cons {A : Type} (p : A -> bool) (c : A)
      (l : list (list A)) :
  filter (forallb p) (map (cons c) l)
  = if p c then map (cons c) (filter (forallb p) l) else [].
Proof.
  induction l as [|a l IH]; simpl.
  - now destruct (p c).
  - rewrite IH. destruct (p c); simpl; [|reflexivity].
    now destruct (forallb p a).
Qed.

Lemma length_filter_extend {A : Type} (p : A -> bool) (cells : list A)
      (l : list (list A)) :
  List.length
    (filter (forallb p) (flat_map (fun c => map (cons c) l) cells))
  = (List.length (filter p cells) * List.length (filter (forallb p) l))%nat.
Proof.
  induction cells as [|c cells IHc]; [reflexivity|].
  cbn [flat_map filter].
  rewrite filter_app, length_app, IHc, filter_forallb_cons.
  destruct (p c); cbn [List.length]; [rewrite length_map; lia|reflexivity].
Qed.

Lemma length_extend {A : Type} (cells : list A) (l : list (list A)) :
  List.length (flat_map (fun c => map (cons c) l) cells)
  = (List.length cells * List.length l)%nat.
Proof.
  induction cells as [|c cells IHc]; [reflexivity|].
  cbn [flat_map List.length]. rewrite length_app, length_map, IHc. lia.
Qed.

Lemma length_filter_sequences {A : Type} (p : A -> bool) (cells : list A)
      (k : nat) :
  List.length (filter (forallb p) (sequences cells k))
  = (List.length (filter p cells) ^ k)%nat.
Proof.
  induction k as [|k IH]; [reflexivity|].
  cbn [sequences Nat.pow]. now rewrite length_filter_extend, IH.
Qed.

Lemma length_sequences {A : Type} (cells : list A) (k : nat) :
  List.length (sequences cells k) = (List.length cells ^ k)%nat.
Proof.
  induction k as [|k IH]; [reflexivity|].
  cbn [sequences Nat.pow]. now rewrite length_extend, IH.
Qed.

Lemma length_filter_le {A : Type} (p : A -> bool) (l : list A) :
  (List.length (filter p l) <= List.length l)%nat.
Proof.
  induction l as [|a l IH]; simpl; [lia|].
  destruct (p a); simpl; lia.
Qed.

Lemma length_filter_lt {A : Type} (p : A -> bool) (l : list A) (c : A) :
  In c l -> p c = false ->
  (List.length (filter p l) < List.length l)%nat.
Proof.
  induction l as [|a l IH]; intros Hin Hc; [contradiction|].
  simpl. destruct Hin as [->|Hin].
  - rewrite Hc. pose proof (length_filter_le p l). lia.
  - specialize (IH Hin Hc). destruct (p a); simpl; lia.
Qed.

(** Bernoulli's bound, in the shape the count needs. *)
Lemma pow_succ_bound (a k : nat) :
  ((a + k) * a ^ k <= a * (a + 1) ^ k)%nat.
Proof.
  induction k as [|k IH]; [simpl; lia|].
  cbn [Nat.pow].
  replace (a * ((a + 1) * (a + 1) ^ k))%nat
    with ((a + 1) * (a * (a + 1) ^ k))%nat by lia.
  apply Nat.le_trans with ((a + 1) * ((a + k) * a ^ k))%nat;
    [|apply Nat.mul_le_mono_l; exact IH].
  nia.
Qed.

Lemma pow_outgrows (a b m : nat) :
  (a < b)%nat -> exists k, (m * a ^ k < b ^ k)%nat.
Proof.
  intros Hab. destruct a as [|a].
  - exists 1%nat. simpl. lia.
  - exists (m * S a)%nat.
    set (k := (m * S a)%nat).
    assert (Hpos : (0 < S a ^ k)%nat).
    { pose proof (Nat.pow_nonzero (S a) k). lia. }
    assert (H1 : ((S a + k) * S a ^ k <= S a * (S a + 1) ^ k)%nat)
      by apply pow_succ_bound.
    assert (H2 : ((S a + 1) ^ k <= b ^ k)%nat)
      by (apply Nat.pow_le_mono_l; lia).
    assert (H3 : (S a * (m * S a ^ k) < S a * (S a + 1) ^ k)%nat).
    { apply Nat.lt_le_trans with ((S a + k) * S a ^ k)%nat; [|exact H1].
      revert Hpos. generalize (S a ^ k)%nat as P. intros P Hpos.
      unfold k. nia. }
    apply Nat.mul_lt_mono_pos_l in H3; lia.
Qed.

(** ** Runs of the driver are runs of the game *)

Lemma play_reachable (cfg : SnakePluginSettings) (events : list Event) :
  forall s s', reachable cfg s -> play events s = Ok s' -> reachable cfg s'.
Proof.
  induction events as [|[now tape|now key] more IH]; intros s s' Hs Hplay.
  - injection Hplay as <-. exact Hs.
  - cbn [play] in Hplay.
    destruct (updateGameState now s tape) as [[s1 rest]| |] eqn:Htick;
      try discriminate.
    apply (IH s1); [|exact Hplay]. eapply reach_tick; eassumption.
  - cbn [play] in Hplay.
    apply (IH (keyDownHandler now key s)); [|exact Hplay].
    now apply reach_key.
Qed.

Lemma openAndPlay_reachable (cfg : SnakePluginSettings) (size : Z)
      (tape : list Q) (events : list Event) (s : State) :
  openAndPlay cfg size tape events = Ok s -> reachable cfg s.
Proof.
  unfold openAndPlay.
  destruct (onOpen cfg size tape) as [[s0 rest]| |] eqn:Hopen;
    try discriminate.
  apply play_reachable. eapply reach_open. exact Hopen.
Qed.

Lemma coiled_reachable : reachable DEFAULT_SETTINGS coiled.
Proof.
  apply (openAndPlay_reachable DEFAULT_SETTINGS 400 [pick 11; pick 10]
           coilScript).
  vm_compute. reflexivity.
Qed.

Lemma atRightEdge_reachable : reachable DEFAULT_SETTINGS atRightEdge.
Proof.
  apply (openAndPlay_reachable DEFAULT_SETTINGS 400 [pick 5; pick 5]
           edgeScript).
  vm_compute. reflexivity.
Qed.

Lemma fastGame_reachable : reachable fastSettings fastGame.
Proof.
  apply (openAndPlay_reachable fastSettings 400 [pick 11; pick 10]
           fastScript).
  vm_compute. reflexivity.
Qed.

(** A tape that only draws cells of the snake leaves the loop running. *)
Lemma generateFood_starves (n : Z) (body : list Segment) :
  forall tape,
    (forall k c, roundCell n tape k = Some c -> onSnake body c = true) ->
    generateFood n body tape = None.
Proof.
  fix IH 1. intros tape Hall.
  destruct tape as [|rx [|ry rest]]; try reflexivity.
  cbn [generateFood].
  assert (H0 := Hall O _ eq_refl). unfold onSnake in H0. simpl in H0.
  rewrite H0. apply IH.
  intros k c Hk. apply (Hall (S k) c). exact Hk.
Qed.

(** The cells a tape of values of [Math.random()] draws are on the grid. *)
Lemma roundCell_inGrid (n : Z) (k : nat) :
  forall tape c,
    0 < n -> Forall unitInterval tape -> roundCell n tape k = Some c ->
    inGrid n c.
Proof.
  induction k as [|k IH]; intros tape c Hn Htape Hcell;
    destruct tape as [|rx [|ry rest]]; try discriminate;
    inversion Htape as [|? ? Hrx Htape']; subst;
    inversion Htape' as [|? ? Hry Hrest]; subst.
  - simpl in Hcell. injection Hcell as <-.
    split; simpl; now apply randomIndex_range.
  - simpl in Hcell. now apply (IH rest).
Qed.

(** When the snake covers the whole grid the loop never returns, whatever
    [Math.random()] gives. *)
Lemma generateFood_full_grid (n : Z) (body : list Segment) (tape : list Q) :
  0 < n -> (forall c, inGrid n c -> onSnake body c = true) ->
  Forall unitInterval tape ->
  generateFood n body tape = None.
Proof.
  intros Hn Hfull Htape. apply generateFood_starves.
  intros k c Hcell. apply Hfull. now apply (roundCell_inGrid n k tape).
Qed.

(** ** The move of the head *)

Lemma moveHead_mod (n : Z) (d : Direction) (first : Segment) :
  0 < n -> inGrid n (cellOf first) ->
  x (moveHead n d first) = (x first + dx d) mod n /\
  y (moveHead n d first) = (y first + dy d) mod n.
Proof.
  intros Hn [Hx Hy]. simpl in Hx, Hy.
  assert (Hback : forall v, 0 <= v < n ->
                            Z.rem (v - 1 + n) n = (v + -1) mod n).
  { intros v Hv. rewrite Z.rem_mod_nonneg by lia.
    replace (v - 1 + n) with (v + -1 + 1 * n) by lia.
    apply Z_mod_plus_full. }
  assert (Hforth : forall v, 0 <= v < n -> Z.rem (v + 1) n = (v + 1) mod n).
  { intros v Hv. apply Z.rem_mod_nonneg; lia. }
  assert (Hstay : forall v, 0 <= v < n -> v = (v + 0) mod n).
  { intros v Hv. rewrite Z.add_0_r. symmetry. now apply Z.mod_small. }
  destruct d; simpl; auto.
Qed.

Lemma moveHead_inGrid (n : Z) (d : Direction) (first : Segment) :
  0 < n -> inGrid n (cellOf first) -> inGrid n (cellOf (moveHead n d first)).
Proof.
  intros Hn Hfirst.
  destruct (moveHead_mod n d first Hn Hfirst) as [Hx Hy].
  unfold inGrid. simpl. rewrite Hx, Hy.
  split; apply Z.mod_pos_bound; exact Hn.
Qed.

(** What a tick of a running game with a snake yields, by the cell its
    head moves to. *)
Lemma tick_outcome (now : Q) (s : State) (tape : list Q) (head : Segment) :
  gameOver s = false -> isPaused s = false -> movedHead s = Some head ->
  match updateGameState now s tape with
  | Ok (s', _) =>
      if hitsSnake s head
      then gameOver s' = true /\ snake s' = snake s
      else gameOver s' = false /\
           exists tl, snake s' = committedHead s head :: tl
  | TypeError => False
  | OutOfDraws => hitsSnake s head = false /\ onFood s head = true
  end.
Proof.
  intros Hover Hpause Hhead.
  destruct (served_fields s) as (Hsn & _ & _ & _ & _ & _ & Hgo & _).
  destruct (hitsSnake s head) eqn:Hhit.
  { rewrite (tick_collision now s tape head) by assumption.
    destruct (showGameOverMenu_fields (set_gameOver true (served s)))
      as (H1 & _ & _ & _ & H5 & _).
    rewrite H1, H5. simpl. auto. }
  destruct (onFood s head) eqn:Hfood.
  - rewrite (tick_eat now s tape head) by assumption.
    destruct (generateFood _ _ tape) as [[f rest]|]; [|auto].
    destruct (speedUp_fields
                (set_food f
                   (set_score (score s + 10)
                      (set_snake (committedHead s head :: snake s)
                         (served s))))) as (H1 & _ & _ & _ & H5).
    cbn [snake gameOver set_lastMoveTime]. rewrite H1, H5. simpl.
    rewrite Hgo, Hover. eauto.
  - rewrite (tick_move now s tape head) by assumption.
    cbn [snake gameOver set_lastMoveTime set_snake].
    rewrite Hgo, Hover. split; [reflexivity|].
    unfold movedHead in Hhead.
    destruct (snake s) as [|first body]; [discriminate|].
    change (removelast (committedHead s head :: first :: body))
      with (committedHead s head :: removelast (first :: body)).
    eauto.
Qed.

(** ** Further invariants of a run *)

Lemma settingsKept_eq (cfg : SnakePluginSettings) (s s' : State) :
  gridSize (settings s') = gridSize (settings s) ->
  gameSpeed (settings s') = gameSpeed (settings s) ->
  speedIncrease (settings s') = speedIncrease (settings s) ->
  settingsKept cfg s -> settingsKept cfg s'.
Proof.
  unfold settingsKept. intros -> -> ->. auto.
Qed.

Lemma tick_settings (now : Q) (s : State) (tape : list Q) (s' : State)
      (rest : list Q) :
  updateGameState now s tape = Ok (s', rest) ->
  gridSize (settings s') = gridSize (settings s) /\
  gameSpeed (settings s') = gameSpeed (settings s) /\
  speedIncrease (settings s') = speedIncrease (settings s).
Proof.
  intros Htick.
  destruct (served_fields s) as (_ & _ & _ & _ & Hset & _).
  apply tick_inv in Htick.
  destruct Htick as [(_ & -> & _)|(head & _ & _ & _ & Hcase)]; [auto|].
  destruct Hcase as [(_ & _ & ->)|[(_ & _ & _ & ->)|(_ & _ & f & _ & ->)]].
  - destruct (showGameOverMenu_fields (set_gameOver true (served s)))
      as (_ & _ & _ & _ & _ & H6 & H7 & H8).
    rewrite H6, H7, H8. simpl. now rewrite Hset.
  - simpl. now rewrite Hset.
  - destruct (speedUp_fields
                (set_food f
                   (set_score (score s + 10)
                      (set_snake (committedHead s head :: snake s)
                         (served s))))) as (_ & _ & _ & H4 & _).
    cbn [settings set_lastMoveTime]. rewrite H4. simpl. now rewrite Hset.
Qed.

Lemma reachable_settingsKept (cfg : SnakePluginSettings) (s : State) :
  reachable cfg s -> settingsKept cfg s.
Proof.
  induction 1 as [size tape s rest Hopen
                 |now tape s s' rest _ IH Htick
                 |d s _ IH|now key s _ IH|s _ IH|s _ IH].
  - unfold onOpen in Hopen.
    destruct (generateFood _ _ tape) as [[f rest']|]; [|discriminate].
    apply adjustCanvasSize_fields in Hopen.
    destruct Hopen as (_ & _ & Hset & _).
    unfold settingsKept. rewrite Hset. simpl. auto.
  - destruct (tick_settings _ _ _ _ _ Htick) as (H1 & H2 & H3).
    now apply (settingsKept_eq cfg s).
  - destruct (offer_fields d s) as (_ & _ & _ & Hset & _).
    apply (settingsKept_eq cfg s); now rewrite ?Hset.
  - destruct (keyDownHandler_fields now key s) as (_ & _ & _ & Hset & _).
    apply (settingsKept_eq cfg s); now rewrite ?Hset.
  - exact IH.
  - exact IH.
Qed.

Lemma Forall_removelast {A : Type} (P : A -> Prop) (l : list A) :
  Forall P l -> Forall P (removelast l).
Proof.
  rewrite !Forall_forall. intros H a Ha. apply H. now apply In_removelast.
Qed.

Lemma center_inGrid (n : Z) :
  0 < n -> inGrid n {| px := n / 2; py := n / 2 |}.
Proof.
  intros Hn. unfold inGrid. simpl.
  assert (0 <= n / 2 < n) by (split; [apply Z.div_pos|apply Z.div_lt]; lia).
  auto.
Qed.

(** The segments of a run are on the grid. *)
Lemma reachable_snakeInGrid (cfg : SnakePluginSettings) (s : State) :
  0 < gridSize cfg -> reachable cfg s -> snakeInGrid s.
Proof.
  intros Hn Hreach.
  induction Hreach as [size tape s rest Hopen
                      |now tape s s' rest Hreach IH Htick
                      |d s _ IH|now key s _ IH|s Hreach IH|s Hreach IH].
  - unfold onOpen in Hopen.
    destruct (generateFood _ _ tape) as [[f rest']|]; [|discriminate].
    apply adjustCanvasSize_fields in Hopen.
    destruct Hopen as (Hmap & _ & Hset & _).
    unfold snakeInGrid. rewrite Hmap, Hset. simpl.
    constructor; [now apply center_inGrid|constructor].
  - destruct (reachable_settingsKept cfg s Hreach) as (Hg & _).
    destruct (tick_settings _ _ _ _ _ Htick) as (Hg' & _).
    destruct (served_fields s) as (Hsn & _).
    unfold snakeInGrid in *. rewrite Hg'.
    apply tick_inv in Htick.
    destruct Htick as [(_ & -> & _)|(head & _ & _ & Hhead & Hcase)];
      [exact IH|].
    assert (Hnew : Forall (inGrid (gridSize (settings s)))
                          (map cellOf (committedHead s head :: snake s))).
    { cbn [map]. constructor; [|exact IH].
      unfold movedHead in Hhead.
      destruct (snake s) as [|first body]; [discriminate|].
      injection Hhead as <-.
      change (cellOf (committedHead s (moveHead (gridSize (settings s))
                                         (servedDirection s) first)))
        with (cellOf (moveHead (gridSize (settings s))
                               (servedDirection s) first)).
      apply moveHead_inGrid; [now rewrite Hg|].
      now inversion IH. }
    destruct Hcase as [(_ & _ & ->)|[(_ & _ & _ & ->)|(_ & _ & f & _ & ->)]].
    + destruct (showGameOverMenu_fields (set_gameOver true (served s)))
        as (H1 & _).
      rewrite H1. simpl. now rewrite Hsn.
    + cbn [snake set_lastMoveTime set_snake].
      rewrite map_removelast. now apply Forall_removelast.
    + destruct (speedUp_fields
                  (set_food f
                     (set_score (score s + 10)
                        (set_snake (committedHead s head :: snake s)
                           (served s))))) as (H1 & _).
      cbn [snake set_lastMoveTime]. rewrite H1. exact Hnew.
  - destruct (offer_fields d s) as (H1 & _ & _ & Hset & _).
    unfold snakeInGrid. now rewrite H1, Hset.
  - destruct (keyDownHandler_fields now key s) as (H1 & _ & _ & Hset & _).
    unfold snakeInGrid. now rewrite H1, Hset.
  - destruct (reachable_settingsKept cfg s Hreach) as (Hg & _).
    unfold snakeInGrid. simpl.
    constructor; [apply center_inGrid; now rewrite Hg|constructor].
  - destruct (reachable_settingsKept cfg s Hreach) as (Hg & _).
    unfold snakeInGrid. simpl.
    constructor; [apply center_inGrid; now rewrite Hg|constructor].
Qed.

(** What does bound the move interval: it never gets below the start
    interval or 51 ms less the step, whichever is smaller. *)
Lemma reachable_intervalBounded (cfg : SnakePluginSettings) (s : State) :
  reachable cfg s -> intervalBounded s.
Proof.
  induction 1 as [size tape s rest Hopen
                 |now tape s s' rest Hreach IH Htick
                 |d s _ IH|now key s _ IH|s _ IH|s _ IH].
  - unfold onOpen in Hopen.
    destruct (generateFood _ _ tape) as [[f rest']|]; [|discriminate].
    apply adjustCanvasSize_fields in Hopen.
    destruct Hopen as (_ & _ & Hset & Hmi).
    unfold intervalBounded. rewrite Hset, Hmi. simpl. lia.
  - destruct (tick_settings _ _ _ _ _ Htick) as (_ & H2 & H3).
    destruct (served_fields s) as (_ & _ & _ & Hmi & Hset & _).
    unfold intervalBounded in *. rewrite H2, H3.
    apply tick_inv in Htick.
    destruct Htick as [(_ & -> & _)|(head & _ & _ & _ & Hcase)];
      [exact IH|].
    destruct Hcase as [(_ & _ & ->)|[(_ & _ & _ & ->)|(_ & _ & f & _ & ->)]].
    + destruct (showGameOverMenu_fields (set_gameOver true (served s)))
        as (_ & _ & _ & H4 & _).
      rewrite H4. simpl. now rewrite Hmi.
    + simpl. now rewrite Hmi.
    + cbn [moveInterval set_lastMoveTime]. unfold speedUp.
      cbn [settings moveInterval set_food set_score set_snake].
      rewrite Hset, Hmi.
      destruct (speedIncrease (settings s) >? 0) eqn:Hinc;
        destruct (moveInterval s >? 50) eqn:Hgt;
        cbn [andb moveInterval set_moveInterval set_food set_score
             set_snake];
        rewrite ?Hmi; try exact IH.
      apply Z.gtb_lt in Hgt. lia.
  - destruct (offer_fields d s) as (_ & _ & _ & Hset & Hmi & _).
    unfold intervalBounded. now rewrite Hset, Hmi.
  - destruct (keyDownHandler_fields now key s) as (_ & _ & _ & Hset & Hmi).
    unfold intervalBounded. now rewrite Hset, Hmi.
  - unfold intervalBounded. simpl. lia.
  - unfold intervalBounded. simpl. lia.
Qed.

(** ** The walls of the earlier revision *)

Lemma Qle_bool_div (w c v : Z) :
  0 < c -> w <= v * c ->
  Qle_bool (inject_Z w / inject_Z c) (inject_Z v) = true.
Proof.
  intros Hc Hw. apply Qle_bool_iff.
  apply Qle_shift_div_r; [now apply inject_Z_pos|].
  rewrite <- inject_Z_mult, <- Zle_Qle. exact Hw.
Qed.

(** In the earlier revision a head that leaves the canvas ends the game,
    and snake, score and food stay as they were. On the canvas of 400
    pixels with cells of 20 the walls are at coordinates -1 and 20. *)
Lemma earlier_wall_ends_game (s : Earlier.State) (tape : list Q)
      (first : Segment) (body : list Segment) :
  0 < Earlier.gridSize s ->
  Earlier.gameOver s = false -> Earlier.isPaused s = false ->
  Earlier.snake s = first :: body ->
  let head := Earlier.moveHead (Earlier.nextDirection s) first in
  (x head < 0 \/ Earlier.canvasWidth s <= x head * Earlier.gridSize s \/
   y head < 0 \/ Earlier.canvasHeight s <= y head * Earlier.gridSize s) ->
  exists s',
    Earlier.updateGameState s tape = Ok (s', tape) /\
    Earlier.gameOver s' = true /\ Earlier.snake s' = Earlier.snake s /\
    Earlier.score s' = Earlier.score s /\ Earlier.food s' = Earlier.food s.
Proof.
  intros Hc Hover Hpause Hs head Hout.
  unfold Earlier.updateGameState. rewrite Hover, Hpause. cbn [orb].
  cbn [Earlier.snake]. rewrite Hs. fold head.
  assert (Hwall : Earlier.hitsWall
                    {| Earlier.snake := first :: body;
                       Earlier.food := Earlier.food s;
                       Earlier.direction := Earlier.nextDirection s;
                       Earlier.nextDirection := Earlier.nextDirection s;
                       Earlier.score := Earlier.score s;
                       Earlier.gridSize := Earlier.gridSize s;
                       Earlier.gameOver := false;
                       Earlier.isPaused := false;
                       Earlier.moveInterval := Earlier.moveInterval s;
                       Earlier.canvasWidth := Earlier.canvasWidth s;
                       Earlier.canvasHeight := Earlier.canvasHeight s;
                       Earlier.highScore := Earlier.highScore s |} head
                  = true).
  { unfold Earlier.hitsWall.
    cbn [Earlier.canvasWidth Earlier.canvasHeight Earlier.gridSize].
    destruct Hout as [H|[H|[H|H]]].
    - apply Z.ltb_lt in H. rewrite H. reflexivity.
    - rewrite (Qle_bool_div _ _ _ Hc H). now rewrite orb_true_r.
    - apply Z.ltb_lt in H. rewrite H. now rewrite orb_true_r.
    - rewrite (Qle_bool_div _ _ _ Hc H). now rewrite orb_true_r. }
  rewrite Hwall. eexists. split; [reflexivity|].
  cbn. repeat split.
Qed.

Example earlier_wall_at_20 :
  exists s',
    Earlier.updateGameState earlierAtWall [] = Ok (s', []) /\
    Earlier.gameOver s' = true /\
    Earlier.snake s' = Earlier.snake earlierAtWall.
Proof.
  destruct (earlier_wall_ends_game earlierAtWall [] (segment 19 10 18 10) [])
    as (s' & H1 & H2 & H3 & _); try reflexivity.
  - right. left. cbn. lia.
  - exists s'. auto.
Qed.

(** ** The scenarios of the specification *)

Lemma opened_is_onOpen :
  onOpen DEFAULT_SETTINGS 400 [pick 11; pick 10] = Ok (opened, []).
Proof. vm_compute. reflexivity. Qed.

(** gridSize 20, snake [(10,10)], direction right, food (11,10): one tick
    gives snake [(11,10), (10,10)] and score 10, the food is elsewhere and
    the move interval is down by the step. *)
Example eating_scenario :
  exists s',
    updateGameState 150 opened [pick 3; pick 4] = Ok (s', []) /\
    map cellOf (snake s')
    = [ {| px := 11; py := 10 |}; {| px := 10; py := 10 |} ] /\
    score s' = 10 /\ food s' = {| px := 3; py := 4 |} /\
    moveInterval s' = 150 - speedIncrease DEFAULT_SETTINGS.
Proof. eexists. split; [vm_compute; reflexivity|]. repeat split. Qed.

(** Snake [(5,5), (5,6)], direction up: the head goes to (5,4), the tail
    (5,6) is removed and the length stays 2. *)
Example moving_scenario :
  let s :=
    set_direction Up
      (set_snake [ segment 5 5 5 6; segment 5 6 5 7 ] opened) in
  exists s',
    updateGameState 150 s [] = Ok (s', []) /\
    map cellOf (snake s')
    = [ {| px := 5; py := 4 |}; {| px := 5; py := 5 |} ] /\
    score s' = score s /\ food s' = food s.
Proof. eexists. split; [vm_compute; reflexivity|]. repeat split. Qed.

(** A tick of a game that is over or paused returns the state it got. *)
Example idle_scenario :
  updateGameState 150 (set_isPaused true opened) [pick 3; pick 4]
  = Ok (set_isPaused true opened, [pick 3; pick 4]) /\
  updateGameState 150 (set_gameOver true opened) [pick 3; pick 4]
  = Ok (set_gameOver true opened, [pick 3; pick 4]).
Proof. split; apply tick_idle; reflexivity. Qed.

(** * The claims of the specification *)

(** ** Snake cells *)

(** C1. In every state of a game that was opened and then driven by ticks
    and offered directions (and key presses and restarts), as long as the
    game is not over, no two segments of the snake are on the same cell, and
    the snake has at least one segment. *)
Theorem snake_cells_distinct (cfg : SnakePluginSettings) (s : State) :
  reachable cfg s -> gameOver s = false ->
  NoDup (map cellOf (snake s)) /\ (1 <= List.length (snake s))%nat.
Proof.
  intros Hreach _.
  destruct (reachable_wellFormed cfg s Hreach) as (Hne & Hnd & _).
  split; [exact Hnd|].
  destruct (snake s); [contradiction|simpl; lia].
Qed.

Lemma snake_cells_distinct_coiled :
  NoDup (map cellOf (snake coiled)) /\ (1 <= List.length (snake coiled))%nat.
Proof.
  apply (snake_cells_distinct DEFAULT_SETTINGS coiled).
  - exact coiled_reachable.
  - reflexivity.
Defined.

(** ** Self-collision *)

(** C2. When the head cell that a tick computes is a cell of the snake, the
    tick sets [gameOver] and leaves the snake, the score, the food and the
    move interval as they were. The tick is one of a game that is neither
    over nor paused: otherwise it computes no head. *)
Theorem self_collision_ends_game (now : Q) (s : State) (tape : list Q)
        (head : Segment) :
  gameOver s = false -> isPaused s = false ->
  movedHead s = Some head -> hitsSnake s head = true ->
  exists s',
    updateGameState now s tape = Ok (s', tape) /\
    gameOver s' = true /\ snake s' = snake s /\ score s' = score s /\
    food s' = food s /\ moveInterval s' = moveInterval s.
Proof.
  intros Hover Hpause Hhead Hhit.
  exists (showGameOverMenu (set_gameOver true (served s))).
  split; [now apply tick_collision with (head := head)|].
  destruct (showGameOverMenu_fields (set_gameOver true (served s)))
    as (H1 & H2 & H3 & H4 & H5 & _).
  destruct (served_fields s) as (Hsn & Hfd & Hsc & Hmi & _).
  rewrite H1, H2, H3, H4, H5. simpl.
  rewrite Hsn, Hfd, Hsc, Hmi. repeat split.
Qed.

Lemma self_collision_ends_game_coiled :
  exists s',
    updateGameState 1050 coiled [] = Ok (s', []) /\
    gameOver s' = true /\ snake s' = snake coiled /\
    score s' = score coiled /\ food s' = food coiled /\
    moveInterval s' = moveInterval coiled.
Proof.
  apply (self_collision_ends_game 1050 coiled [] (segment 13 10 14 11));
    reflexivity.
Defined.

(** The scenario of the specification: the snake is the closed loop
    (5,5), (6,5), (6,6), (5,6) and heads right, into (6,5). *)
Example closed_loop_scenario :
  let loop :=
    set_inputQueue []
      (set_direction Right
         (set_snake [ segment 5 5 5 6; segment 6 5 5 5;
                      segment 6 6 6 5; segment 5 6 6 6 ] coiled)) in
  exists s',
    updateGameState 1050 loop [] = Ok (s', []) /\
    gameOver s' = true /\ score s' = score loop /\ snake s' = snake loop.
Proof. eexists. repeat split. Qed.

(** ** The input queue *)

(** C6. [offer] appends the direction to the queue exactly when the queue
    holds fewer than two directions and the direction is not the reverse of
    the last queued one, or of the current direction when the queue is
    empty. Every other offer returns the state it was given. [offer] is a
    total function to states: there is no error it could raise. *)
Theorem offer_appends_iff (d : Direction) (s : State) :
  let accepted :=
    (List.length (inputQueue s) < 2)%nat /\
    d <> opposite (last (inputQueue s) (direction s)) in
  (inputQueue (offer d s) = inputQueue s ++ [d] <-> accepted) /\
  (accepted -> offer d s = set_inputQueue (inputQueue s ++ [d]) s) /\
  (~ accepted -> offer d s = s).
Proof.
  cbv zeta.
  assert (Hvalid : isValidDirection s d = true <->
                   d <> opposite (last (inputQueue s) (direction s))).
  { unfold isValidDirection.
    destruct (last (inputQueue s) (direction s)), d; simpl;
      split; intros H; try reflexivity; try discriminate;
      try congruence. }
  assert (Hlen : (List.length (inputQueue s) <? MAX_QUEUED_INPUTS)%nat = true
                 <-> (List.length (inputQueue s) < 2)%nat)
    by apply Nat.ltb_lt.
  assert (Hgrow : inputQueue s ++ [d] <> inputQueue s).
  { intros H. apply (f_equal (@List.length Direction)) in H.
    rewrite length_app in H. simpl in H. lia. }
  assert (Hcond : isValidDirection s d
                  && (List.length (inputQueue s) <? MAX_QUEUED_INPUTS)%nat
                  = true
                  <-> (List.length (inputQueue s) < 2)%nat /\
                      d <> opposite (last (inputQueue s) (direction s))).
  { rewrite andb_true_iff, Hvalid, Hlen. tauto. }
  unfold offer.
  destruct (isValidDirection s d
            && (List.length (inputQueue s) <? MAX_QUEUED_INPUTS)%nat).
  - assert (Hadm : (List.length (inputQueue s) < 2)%nat /\
                   d <> opposite (last (inputQueue s) (direction s)))
      by (now apply Hcond).
    split; [|split].
    + split; [intros _; exact Hadm|intros _; reflexivity].
    + intros _. reflexivity.
    + intros Hn. contradiction.
  - assert (Hadm : ~ ((List.length (inputQueue s) < 2)%nat /\
                      d <> opposite (last (inputQueue s) (direction s)))).
    { intros H. apply Hcond in H. discriminate. }
    split; [|split].
    + split; [intros H; symmetry in H; contradiction
             |intros H; contradiction].
    + intros H. contradiction.
    + intros _. reflexivity.
Qed.

(** ** Score and length *)

(** C10. In every state of a run the score is ten times the number of
    segments after the first; and a tick either adds 10 to the score and
    one segment to the snake, or changes neither the score nor the
    length. *)
Theorem score_counts_segments (cfg : SnakePluginSettings) (s : State) :
  reachable cfg s ->
  score s = 10 * (Z.of_nat (List.length (snake s)) - 1) /\
  forall now tape s' rest,
    updateGameState now s tape = Ok (s', rest) ->
    (score s' = score s + 10 /\
     List.length (snake s') = S (List.length (snake s)))
    \/ (score s' = score s /\ List.length (snake s') = List.length (snake s)).
Proof.
  intros Hreach.
  destruct (reachable_wellFormed cfg s Hreach) as (_ & _ & Hscore).
  split; [exact Hscore|].
  intros now tape s' rest Htick.
  destruct (served_fields s) as (Hsn & _ & Hsc & _).
  apply tick_inv in Htick.
  destruct Htick as [(_ & -> & _)|(head & _ & _ & _ & Hcase)]; [now right|].
  destruct Hcase as [(_ & _ & ->)|[(_ & _ & _ & ->)|(_ & _ & f & _ & ->)]].
  - right.
    destruct (showGameOverMenu_fields (set_gameOver true (served s)))
      as (H1 & _ & H3 & _).
    rewrite H1, H3. simpl. now rewrite Hsn, Hsc.
  - right. cbn [snake score set_lastMoveTime set_snake].
    now rewrite length_removelast_cons.
  - left.
    destruct (speedUp_fields
                (set_food f
                   (set_score (score s + 10)
                      (set_snake (committedHead s head :: snake s)
                         (served s))))) as (H1 & _ & H3 & _).
    cbn [snake score set_lastMoveTime]. rewrite H1, H3. simpl. auto.
Qed.

Lemma score_counts_segments_coiled :
  score coiled = 10 * (Z.of_nat (List.length (snake coiled)) - 1) /\
  forall now tape s' rest,
    updateGameState now coiled tape = Ok (s', rest) ->
    (score s' = score coiled + 10 /\
     List.length (snake s') = S (List.length (snake coiled)))
    \/ (score s' = score coiled /\
        List.length (snake s') = List.length (snake coiled)).
Proof.
  apply (score_counts_segments DEFAULT_SETTINGS coiled).
  exact coiled_reachable.
Defined.

(** ** Food placement *)

(** C8. Whenever [generateFood] returns, with [Math.random()] giving values
    in [0, 1) and a grid of at least one cell, the cell it returns is not a
    cell of the snake and has both coordinates in [0, gridSize). *)
Theorem generateFood_free_in_grid (n : Z) (body : list Segment)
        (tape : list Q) (f : Point) (rest : list Q) :
  0 < n -> Forall unitInterval tape ->
  generateFood n body tape = Some (f, rest) ->
  ~ In f (map cellOf body) /\ inGrid n f.
Proof.
  intros Hn Htape Hgen.
  destruct (generateFood_sound n body tape f rest Hgen)
    as (Hfree & rx & ry & Hx & Hy & ->).
  rewrite Forall_forall in Htape. split.
  - unfold onSnake in Hfree. simpl in Hfree.
    now apply occupies_not_In.
  - split; simpl; apply randomIndex_range; auto.
Qed.

Lemma generateFood_free_in_grid_coiled :
  ~ In {| px := 3; py := 4 |} (map cellOf (snake coiled)) /\
  inGrid 20 {| px := 3; py := 4 |}.
Proof.
  apply (generateFood_free_in_grid 20 (snake coiled)
           [pick 13; pick 10; pick 3; pick 4] {| px := 3; py := 4 |} []).
  - lia.
  - repeat constructor; apply (unitInterval_div _ 20); lia.
  - reflexivity.
Defined.

(** C9. When some cell of the grid is not covered by the snake,
    [generateFood] terminates: the loop returns in the first round that
    draws a free cell, and values of [Math.random()] that make it return
    exist. [Math.random()] is free to avoid the free cells for any number
    of rounds, but with a vanishing share of its draws: of the equally
    likely sequences of cells that [k] rounds can draw, those that leave
    the loop running are [occupied ^ k] out of [cells ^ k], with
    [occupied < cells], so that their share falls below any [1 / m]. *)
Theorem generateFood_terminates (n : Z) (body : list Segment) :
  0 < n ->
  (exists c, inGrid n c /\ onSnake body c = false) ->
  (forall tape k c,
      roundCell n tape k = Some c -> onSnake body c = false ->
      exists f rest, generateFood n body tape = Some (f, rest))
  /\ (exists tape f rest,
         Forall unitInterval tape /\
         generateFood n body tape = Some (f, rest))
  /\ (List.length (occupiedCells n body) < List.length (gridCells n))%nat
  /\ (forall k,
         List.length (filter (stillDrawing n body)
                             (sequences (gridCells n) k))
         = (List.length (occupiedCells n body) ^ k)%nat /\
         List.length (sequences (gridCells n) k)
         = (List.length (gridCells n) ^ k)%nat)
  /\ (forall m : nat, exists k,
         (m * List.length (filter (stillDrawing n body)
                                  (sequences (gridCells n) k))
          < List.length (sequences (gridCells n) k))%nat).
Proof.
  intros Hn (c & Hgrid & Hfree).
  assert (Hcount : forall k,
             List.length (filter (stillDrawing n body)
                                 (sequences (gridCells n) k))
             = (List.length (occupiedCells n body) ^ k)%nat).
  { intros k.
    rewrite (filter_ext (stillDrawing n body) (forallb (onSnake body)))
      by (intros cells; now apply stillDrawing_forallb).
    apply length_filter_sequences. }
  assert (Hless : (List.length (occupiedCells n body)
                   < List.length (gridCells n))%nat).
  { apply length_filter_lt with (c := c); [|exact Hfree].
    now apply In_gridCells. }
  split; [|split; [|split; [|split]]].
  - intros tape k c'. apply generateFood_first_free.
  - exists (tapeOf n [c]), c, [].
    destruct Hgrid as [Hx Hy]. split.
    + cbn [tapeOf]. repeat constructor; now apply unitInterval_div.
    + cbn [tapeOf generateFood]. rewrite !randomIndex_exact by exact Hn.
      unfold onSnake in Hfree. rewrite Hfree. now destruct c.
  - exact Hless.
  - intros k. split; [apply Hcount|apply length_sequences].
  - intros m.
    destruct (pow_outgrows _ _ m Hless) as [k Hk].
    exists k. now rewrite Hcount, length_sequences.
Qed.

Lemma generateFood_terminates_coiled :
  (forall tape k c,
      roundCell 20 tape k = Some c -> onSnake (snake coiled) c = false ->
      exists f rest, generateFood 20 (snake coiled) tape = Some (f, rest))
  /\ (exists tape f rest,
         Forall unitInterval tape /\
         generateFood 20 (snake coiled) tape = Some (f, rest))
  /\ (List.length (occupiedCells 20 (snake coiled))
      < List.length (gridCells 20))%nat
  /\ (forall k,
         List.length (filter (stillDrawing 20 (snake coiled))
                             (sequences (gridCells 20) k))
         = (List.length (occupiedCells 20 (snake coiled)) ^ k)%nat /\
         List.length (sequences (gridCells 20) k)
         = (List.length (gridCells 20) ^ k)%nat)
  /\ (forall m : nat, exists k,
         (m * List.length (filter (stillDrawing 20 (snake coiled))
                                  (sequences (gridCells 20) k))
          < List.length (sequences (gridCells 20) k))%nat).
Proof.
  apply (generateFood_terminates 20 (snake coiled)).
  - lia.
  - exists {| px := 0; py := 0 |}. split; [|reflexivity].
    unfold inGrid. simpl. lia.
Defined.

(** ** Boundaries *)

(** C5. A tick of a running game moves the head one step in the direction
    it serves, both coordinates taken modulo [gridSize]: the cell it
    computes is [(x + dx) mod gridSize, (y + dy) mod gridSize], and unless
    that cell is on the snake (then the game is over and the snake stays)
    it is the cell of the first segment afterwards. In particular a head in
    the last column that goes right comes to column 0. *)
Theorem tick_wraps_head (now : Q) (s : State) (tape : list Q)
        (first : Segment) (body : list Segment) :
  0 < gridSize (settings s) ->
  gameOver s = false -> isPaused s = false ->
  snake s = first :: body ->
  inGrid (gridSize (settings s)) (cellOf first) ->
  exists head,
    movedHead s = Some head /\
    x head = (x first + dx (servedDirection s)) mod gridSize (settings s) /\
    y head = (y first + dy (servedDirection s)) mod gridSize (settings s) /\
    (x first = gridSize (settings s) - 1 -> servedDirection s = Right ->
     x head = 0) /\
    match updateGameState now s tape with
    | Ok (s', _) =>
        if hitsSnake s head
        then gameOver s' = true /\ snake s' = snake s
        else exists seg tl,
               snake s' = seg :: tl /\ cellOf seg = cellOf head
    | TypeError => False
    | OutOfDraws => hitsSnake s head = false /\ onFood s head = true
    end.
Proof.
  intros Hn Hover Hpause Hs Hfirst.
  set (n := gridSize (settings s)) in *.
  set (d := servedDirection s).
  exists (moveHead n d first).
  assert (Hhead : movedHead s = Some (moveHead n d first))
    by (unfold movedHead; now rewrite Hs).
  destruct (moveHead_mod n d first Hn Hfirst) as [Hx Hy].
  split; [exact Hhead|]. split; [exact Hx|]. split; [exact Hy|]. split.
  - intros Hlast Hright. rewrite Hx, Hlast, Hright. simpl.
    replace (n - 1 + 1) with (1 * n) by lia. apply Z_mod_mult.
  - pose proof (tick_outcome now s tape _ Hover Hpause Hhead) as Hout.
    destruct (updateGameState now s tape) as [[s' rest]| |]; try exact Hout.
    destruct (hitsSnake s (moveHead n d first)); [exact Hout|].
    destruct Hout as (_ & tl & Htl).
    exists (committedHead s (moveHead n d first)), tl. split; [exact Htl|].
    reflexivity.
Qed.

Lemma tick_wraps_head_atRightEdge :
  exists head,
    movedHead atRightEdge = Some head /\
    x head = (19 + 1) mod 20 /\
    y head = (10 + 0) mod 20 /\
    (19 = 20 - 1 -> Right = Right -> x head = 0) /\
    match updateGameState 1500 atRightEdge [] with
    | Ok (s', _) =>
        if hitsSnake atRightEdge head
        then gameOver s' = true /\ snake s' = snake atRightEdge
        else exists seg tl,
               snake s' = seg :: tl /\ cellOf seg = cellOf head
    | TypeError => False
    | OutOfDraws =>
        hitsSnake atRightEdge head = false /\ onFood atRightEdge head = true
    end.
Proof.
  apply (tick_wraps_head 1500 atRightEdge [] (segment 19 10 18 10) []).
  - reflexivity.
  - reflexivity.
  - reflexivity.
  - reflexivity.
  - unfold inGrid. simpl. lia.
Defined.

(** The current tick at the border of the grid: [updateGameState] always
    wraps. When a step of the head would lead to coordinate -1 or
    [gridSize], the head comes to [gridSize - 1] or 0 on that axis, inside
    the grid; the tick sets [gameOver] exactly when that cell is on the
    snake, and otherwise puts the head there. *)
Theorem edge_step_wraps (now : Q) (s : State) (tape : list Q)
        (first : Segment) (body : list Segment) :
  0 < gridSize (settings s) ->
  gameOver s = false -> isPaused s = false ->
  snake s = first :: body ->
  inGrid (gridSize (settings s)) (cellOf first) ->
  (x first + dx (servedDirection s) = -1 \/
   x first + dx (servedDirection s) = gridSize (settings s) \/
   y first + dy (servedDirection s) = -1 \/
   y first + dy (servedDirection s) = gridSize (settings s)) ->
  exists head,
    movedHead s = Some head /\
    (x first + dx (servedDirection s) = -1 ->
     x head = gridSize (settings s) - 1) /\
    (x first + dx (servedDirection s) = gridSize (settings s) ->
     x head = 0) /\
    (y first + dy (servedDirection s) = -1 ->
     y head = gridSize (settings s) - 1) /\
    (y first + dy (servedDirection s) = gridSize (settings s) ->
     y head = 0) /\
    inGrid (gridSize (settings s)) (cellOf head) /\
    match updateGameState now s tape with
    | Ok (s', _) =>
        gameOver s' = hitsSnake s head /\
        (hitsSnake s head = false ->
         exists tl, snake s' = committedHead s head :: tl)
    | TypeError => False
    | OutOfDraws => hitsSnake s head = false /\ onFood s head = true
    end.
Proof.
  intros Hn Hover Hpause Hs Hfirst _.
  set (n := gridSize (settings s)) in *.
  set (d := servedDirection s).
  exists (moveHead n d first).
  assert (Hhead : movedHead s = Some (moveHead n d first))
    by (unfold movedHead; now rewrite Hs).
  destruct (moveHead_mod n d first Hn Hfirst) as [Hx Hy].
  assert (Hlow : (-1) mod n = n - 1).
  { replace (-1) with (n - 1 + -1 * n) by lia.
    rewrite Z_mod_plus_full. apply Z.mod_small. lia. }
  assert (Hhigh : n mod n = 0) by (apply Z_mod_same_full).
  split; [exact Hhead|].
  split; [intros H; now rewrite Hx, H|].
  split; [intros H; now rewrite Hx, H|].
  split; [intros H; now rewrite Hy, H|].
  split; [intros H; now rewrite Hy, H|].
  split; [now apply moveHead_inGrid|].
  pose proof (tick_outcome now s tape _ Hover Hpause Hhead) as Hout.
  destruct (updateGameState now s tape) as [[s' rest]| |]; try exact Hout.
  destruct (hitsSnake s (moveHead n d first)).
  - destruct Hout as [-> _]. split; [reflexivity|discriminate].
  - destruct Hout as [-> Htl]. split; [reflexivity|auto].
Qed.

Lemma edge_step_wraps_atRightEdge :
  exists head,
    movedHead atRightEdge = Some head /\
    (19 + 1 = -1 -> x head = 20 - 1) /\
    (19 + 1 = 20 -> x head = 0) /\
    (10 + 0 = -1 -> y head = 20 - 1) /\
    (10 + 0 = 20 -> y head = 0) /\
    inGrid 20 (cellOf head) /\
    match updateGameState 1500 atRightEdge [] with
    | Ok (s', _) =>
        gameOver s' = hitsSnake atRightEdge head /\
        (hitsSnake atRightEdge head = false ->
         exists tl, snake s' = committedHead atRightEdge head :: tl)
    | TypeError => False
    | OutOfDraws =>
        hitsSnake atRightEdge head = false /\ onFood atRightEdge head = true
    end.
Proof.
  apply (edge_step_wraps 1500 atRightEdge [] (segment 19 10 18 10) []).
  - reflexivity.
  - reflexivity.
  - reflexivity.
  - reflexivity.
  - unfold inGrid. simpl. lia.
  - right. left. reflexivity.
Defined.

(** C4, as the code has it. The bounded policy is the tick of the earlier
    revision of [main.ts] that the repository keeps, not a setting of the
    game. There, on a canvas of [n] cells per axis ([canvas.width] and
    [canvas.height] are [n] times the cell size [this.gridSize], as on the
    canvas of 400 pixels with cells of 20), for every running state in
    which a step of the head in the direction of the tick leads to
    coordinate -1 or [n] on either axis, the tick sets [gameOver] and
    leaves the snake, the score and the food as they were. *)
Theorem walls_end_game_in_earlier_revision (s : Earlier.State)
        (tape : list Q) (first : Segment) (body : list Segment) (n : Z) :
  0 < Earlier.gridSize s ->
  Earlier.canvasWidth s = n * Earlier.gridSize s ->
  Earlier.canvasHeight s = n * Earlier.gridSize s ->
  Earlier.gameOver s = false -> Earlier.isPaused s = false ->
  Earlier.snake s = first :: body ->
  (x first + dx (Earlier.nextDirection s) = -1 \/
   x first + dx (Earlier.nextDirection s) = n \/
   y first + dy (Earlier.nextDirection s) = -1 \/
   y first + dy (Earlier.nextDirection s) = n) ->
  exists s',
    Earlier.updateGameState s tape = Ok (s', tape) /\
    Earlier.gameOver s' = true /\ Earlier.snake s' = Earlier.snake s /\
    Earlier.score s' = Earlier.score s /\ Earlier.food s' = Earlier.food s.
Proof.
  intros Hc Hw Hh Hover Hpause Hs Hedge.
  apply (earlier_wall_ends_game s tape first body Hc Hover Hpause Hs).
  assert (Hx : x (Earlier.moveHead (Earlier.nextDirection s) first)
               = x first + dx (Earlier.nextDirection s))
    by (destruct (Earlier.nextDirection s); cbn; lia).
  assert (Hy : y (Earlier.moveHead (Earlier.nextDirection s) first)
               = y first + dy (Earlier.nextDirection s))
    by (destruct (Earlier.nextDirection s); cbn; lia).
  rewrite Hx, Hy, Hw, Hh.
  destruct Hedge as [H|[H|[H|H]]]; rewrite H.
  - left. lia.
  - right. left. lia.
  - right. right. left. lia.
  - right. right. right. lia.
Qed.

Lemma walls_end_game_in_earlier_revision_earlierAtWall :
  exists s',
    Earlier.updateGameState earlierAtWall [] = Ok (s', []) /\
    Earlier.gameOver s' = true /\
    Earlier.snake s' = Earlier.snake earlierAtWall /\
    Earlier.score s' = Earlier.score earlierAtWall /\
    Earlier.food s' = Earlier.food earlierAtWall.
Proof.
  apply (walls_end_game_in_earlier_revision earlierAtWall []
           (segment 19 10 18 10) [] 20).
  - reflexivity.
  - reflexivity.
  - reflexivity.
  - reflexivity.
  - reflexivity.
  - reflexivity.
  - right. left. reflexivity.
Defined.

(** C4, as the specification has it, fails in what it says of the
    configuration: the bounded policy is not an option of the game. The
    settings have no field for it, and whatever the settings are, the
    current tick wraps: with the head in the last column of a grid of 20, a
    step right leads to coordinate [gridSize], and the tick does not end
    the game but moves the snake to column 0. *)
Lemma wall_does_not_end_game :
  servedDirection atRightEdge = Right /\
  map cellOf (snake atRightEdge) = [ {| px := 19; py := 10 |} ] /\
  19 + dx Right = gridSize (settings atRightEdge) /\
  gameOver atRightEdge = false /\ isPaused atRightEdge = false /\
  (forall cfg, gridSize cfg = 20 ->
     exists s',
       updateGameState 1500 (set_settings cfg atRightEdge) []
       = Ok (s', []) /\
       gameOver s' = false /\
       map cellOf (snake s') = [ {| px := 0; py := 10 |} ] /\
       snake s' <> snake atRightEdge) /\
  ~ (exists cfg s' rest,
        gridSize cfg = 20 /\
        updateGameState 1500 (set_settings cfg atRightEdge) []
        = Ok (s', rest) /\
        gameOver s' = true).
Proof.
  assert (Hwrap : forall cfg, gridSize cfg = 20 ->
            exists s',
              updateGameState 1500 (set_settings cfg atRightEdge) []
              = Ok (s', []) /\
              gameOver s' = false /\
              map cellOf (snake s') = [ {| px := 0; py := 10 |} ] /\
              snake s' <> snake atRightEdge).
  { intros [hs gs n si] Hn. simpl in Hn. subst n.
    eexists. split; [vm_compute; reflexivity|].
    repeat split. discriminate. }
  split; [reflexivity|]. split; [reflexivity|]. split; [reflexivity|].
  split; [reflexivity|]. split; [reflexivity|]. split; [exact Hwrap|].
  intros (cfg & s' & rest & Hn & Htick & Hover).
  destruct (Hwrap cfg Hn) as (s1 & Htick1 & Hover1 & _).
  rewrite Htick1 in Htick. injection Htick as <- _.
  rewrite Hover1 in Hover. discriminate.
Qed.

(** ** Growth *)

(** C3, as the code has it: for a tick of a running game whose new head is
    not on the snake. If the new head is on the food, the tick waits for
    [generateFood], and with the cell [f] that returns the score is up by
    10, the food is at [f], away from where it was and off the snake, and
    the snake is the old one with the new head in front: one longer, the
    tail still there. Otherwise the tick returns, the snake is the new head
    and the old snake without its tail, as long as before, and score and
    food are as they were. *)
Theorem tick_grows_or_moves (now : Q) (s : State) (tape : list Q)
        (head : Segment) :
  gameOver s = false -> isPaused s = false ->
  movedHead s = Some head -> hitsSnake s head = false ->
  if onFood s head then
    match generateFood (gridSize (settings s))
            (committedHead s head :: snake s) tape with
    | Some (f, rest) =>
        exists s',
          updateGameState now s tape = Ok (s', rest) /\
          score s' = score s + 10 /\
          food s' = f /\ food s' <> food s /\
          onSnake (snake s') (food s') = false /\
          snake s' = committedHead s head :: snake s /\
          List.length (snake s') = S (List.length (snake s))
    | None => updateGameState now s tape = OutOfDraws
    end
  else
    exists s',
      updateGameState now s tape = Ok (s', tape) /\
      snake s' = committedHead s head :: removelast (snake s) /\
      List.length (snake s') = List.length (snake s) /\
      score s' = score s /\ food s' = food s.
Proof.
  intros Hover Hpause Hhead Hhit.
  destruct (served_fields s) as (Hsn & Hfd & Hsc & _).
  destruct (onFood s head) eqn:Hfood.
  - rewrite (tick_eat now s tape head) by assumption.
    destruct (generateFood _ _ tape) as [[f rest]|] eqn:Hgen;
      [|reflexivity].
    eexists. split; [reflexivity|].
    destruct (speedUp_fields
                (set_food f
                   (set_score (score s + 10)
                      (set_snake (committedHead s head :: snake s)
                         (served s))))) as (H1 & H2 & H3 & _).
    cbn [snake score food set_lastMoveTime]. rewrite H1, H2, H3.
    cbn [snake score food set_food set_score set_snake].
    destruct (generateFood_sound _ _ _ _ _ Hgen) as [Hoff _].
    repeat split; try assumption.
    intros Heq. unfold onSnake in Hoff. cbn [occupies existsb] in Hoff.
    apply orb_false_iff in Hoff. destruct Hoff as [Hoff _].
    unfold onFood in Hfood. rewrite <- Heq in Hfood.
    cbn [x y committedHead] in Hoff. congruence.
  - rewrite (tick_move now s tape head) by assumption.
    eexists. split; [reflexivity|].
    cbn [snake score food set_lastMoveTime set_snake].
    unfold movedHead in Hhead.
    destruct (snake s) as [|first body] eqn:Hs; [discriminate|].
    rewrite length_removelast_cons. repeat split; assumption.
Qed.

Lemma tick_grows_or_moves_examples :
  (exists s',
      updateGameState 150 opened [pick 3; pick 4] = Ok (s', []) /\
      score s' = score opened + 10 /\
      food s' = {| px := 3; py := 4 |} /\ food s' <> food opened /\
      onSnake (snake s') (food s') = false /\
      snake s' = committedHead opened (segment 11 10 10 10) :: snake opened /\
      List.length (snake s') = S (List.length (snake opened)))
  /\ (exists s',
         updateGameState 1500 atRightEdge [] = Ok (s', []) /\
         snake s' = committedHead atRightEdge (segment 0 10 18 10)
                    :: removelast (snake atRightEdge) /\
         List.length (snake s') = List.length (snake atRightEdge) /\
         score s' = score atRightEdge /\ food s' = food atRightEdge).
Proof.
  split.
  - apply (tick_grows_or_moves 150 opened [pick 3; pick 4]
             (segment 11 10 10 10)); reflexivity.
  - apply (tick_grows_or_moves 1500 atRightEdge [] (segment 0 10 18 10));
      reflexivity.
Defined.

(** C3, as the specification has it, fails on a tick that runs into the
    snake: in the coiled game the new head, (13,10), is not the food, and
    the tick neither removes the tail nor moves the snake: it ends the
    game and leaves all five segments, the tail (12,10) among them. *)
Lemma collision_keeps_tail :
  reachable DEFAULT_SETTINGS coiled /\
  gameOver coiled = false /\ isPaused coiled = false /\
  movedHead coiled = Some (segment 13 10 14 11) /\
  onFood coiled (segment 13 10 14 11) = false /\
  exists s',
    updateGameState 1050 coiled [] = Ok (s', []) /\
    snake s' = snake coiled /\
    last (map cellOf (snake s')) {| px := 0; py := 0 |}
    = {| px := 12; py := 10 |} /\
    snake s'
    <> committedHead coiled (segment 13 10 14 11)
       :: removelast (snake coiled).
Proof.
  split; [exact coiled_reachable|].
  repeat split.
  eexists. split; [vm_compute; reflexivity|].
  repeat split. discriminate.
Qed.

(** ** Speed *)

(** C7 does not hold of the code: the test [moveInterval > 50] comes before
    the subtraction and nothing bounds the difference. With a start at
    60 ms and a step of 7 ms the interval is 53 after the first food and 46
    after the second. *)
Lemma speed_falls_below_50 :
  50 <= gameSpeed fastSettings /\ 0 < speedIncrease fastSettings /\
  openAndPlay fastSettings 400 [pick 11; pick 10] fastScript = Ok fastGame /\
  reachable fastSettings fastGame /\
  moveInterval fastGame = 46 /\ moveInterval fastGame < 50.
Proof.
  repeat split; try exact fastGame_reachable.
  - discriminate.
Qed.

(** * Further properties of the code *)

(** ** What the operations keep, continued *)

Lemma showGameOverMenu_control (s : State) :
  direction (showGameOverMenu s) = direction s /\
  inputQueue (showGameOverMenu s) = inputQueue s /\
  isPaused (showGameOverMenu s) = isPaused s /\
  gameStarted (showGameOverMenu s) = gameStarted s /\
  lastMoveTime (showGameOverMenu s) = lastMoveTime s.
Proof.
  unfold showGameOverMenu.
  destruct (score s >? highScore (settings s)); simpl; repeat split.
Qed.

Lemma speedUp_control (s : State) :
  direction (speedUp s) = direction s /\
  inputQueue (speedUp s) = inputQueue s /\
  isPaused (speedUp s) = isPaused s /\
  gameStarted (speedUp s) = gameStarted s /\
  lastMoveTime (speedUp s) = lastMoveTime s.
Proof.
  unfold speedUp.
  destruct ((speedIncrease (settings s) >? 0) && (moveInterval s >? 50));
    simpl; repeat split.
Qed.

Lemma served_control (s : State) :
  inputQueue (served s) = tl (inputQueue s) /\
  gameStarted (served s) = gameStarted s /\
  lastMoveTime (served s) = lastMoveTime s.
Proof.
  unfold served.
  destruct (inputQueue s) eqn:Hq; simpl; rewrite ?Hq; repeat split.
Qed.

(** A tick that returns either changes nothing, or is the tick of a running
    game: it serves the oldest queued direction, keeps the rest of the
    queue, and ends the game, or else stamps the move with its time. *)
Lemma tick_control (now : Q) (s : State) (tape : list Q) (s' : State)
      (rest : list Q) :
  updateGameState now s tape = Ok (s', rest) ->
  (gameOver s || isPaused s = true /\ s' = s /\ rest = tape)
  \/ (gameOver s = false /\ isPaused s = false /\
      direction s' = servedDirection s /\
      inputQueue s' = tl (inputQueue s) /\
      isPaused s' = false /\ gameStarted s' = gameStarted s /\
      ((gameOver s' = true /\ lastMoveTime s' = lastMoveTime s /\
        snake s' = snake s)
       \/ (gameOver s' = false /\ lastMoveTime s' = now))).
Proof.
  intros Htick.
  destruct (served_fields s) as (Hsn & _ & _ & _ & _ & _ & Hgo & Hpa).
  destruct (served_control s) as (Hq & Hgs & Hlm).
  pose proof (served_direction s) as Hdir.
  apply tick_inv in Htick.
  destruct Htick as [(Hidle & -> & ->)|(head & Hover & Hpause & _ & Hcase)];
    [left; auto|].
  right. split; [exact Hover|]. split; [exact Hpause|].
  destruct Hcase as [(_ & _ & ->)|[(_ & _ & _ & ->)|(_ & _ & f & _ & ->)]].
  - destruct (showGameOverMenu_control (set_gameOver true (served s)))
      as (H1 & H2 & H3 & H4 & H5).
    destruct (showGameOverMenu_fields (set_gameOver true (served s)))
      as (H6 & _ & _ & _ & H7 & _).
    rewrite H1, H2, H3, H4, H5, H6, H7. simpl.
    rewrite Hdir, Hq, Hpa, Hgs, Hlm, Hsn. repeat split; auto.
  - simpl. rewrite Hdir, Hq, Hpa, Hgs, Hgo. repeat split; auto.
  - destruct (speedUp_control
                (set_food f
                   (set_score (score s + 10)
                      (set_snake (committedHead s head :: snake s)
                         (served s))))) as (H1 & H2 & H3 & H4 & _).
    destruct (speedUp_fields
                (set_food f
                   (set_score (score s + 10)
                      (set_snake (committedHead s head :: snake s)
                         (served s))))) as (_ & _ & _ & _ & H5).
    cbn [direction inputQueue isPaused gameStarted gameOver lastMoveTime
         set_lastMoveTime].
    rewrite H1, H2, H3, H4, H5. simpl.
    rewrite Hdir, Hq, Hpa, Hgs, Hgo. repeat split; auto.
Qed.

Lemma offer_queue (d : Direction) (s : State) :
  inputQueue (offer d s) = inputQueue s
  \/ (inputQueue (offer d s) = inputQueue s ++ [d] /\
      (List.length (inputQueue s) < 2)%nat /\
      Direction_eqb d (opposite (last (inputQueue s) (direction s)))
      = false).
Proof.
  unfold offer.
  destruct (isValidDirection s d) eqn:Hv; [|left; reflexivity].
  destruct (List.length (inputQueue s) <? MAX_QUEUED_INPUTS)%nat eqn:Hl;
    [|left; reflexivity].
  right. split; [reflexivity|]. split; [now apply Nat.ltb_lt|].
  unfold isValidDirection in Hv.
  destruct (last (inputQueue s) (direction s)), d;
    simpl in Hv |- *; congruence.
Qed.

(** A key press starts the game, toggles the pause, or is an offer. *)
Lemma keyDownHandler_cases (now : Q) (key : string) (s : State) :
  keyDownHandler now key s = s
  \/ keyDownHandler now key s = startGame now s
  \/ keyDownHandler now key s = togglePause now s
  \/ exists d, keyDownHandler now key s = offer d s.
Proof.
  unfold keyDownHandler.
  destruct (negb (gameStarted s)).
  { destruct ((key =? "Enter") || (key =? " "))%string; auto. }
  destruct (key =? "Escape")%string; [auto|].
  destruct (isPaused s); [auto|].
  destruct (keyDirection key) as [d|]; [|auto].
  right. right. right. exists d. reflexivity.
Qed.

Lemma keyDownHandler_control (now : Q) (key : string) (s : State) :
  direction (keyDownHandler now key s) = direction s /\
  gameOver (keyDownHandler now key s) = gameOver s /\
  (inputQueue (keyDownHandler now key s) = inputQueue s
   \/ exists d, keyDownHandler now key s = offer d s).
Proof.
  destruct (keyDownHandler_cases now key s) as [H|[H|[H|[d H]]]];
    rewrite H.
  - auto.
  - unfold startGame. simpl. auto.
  - unfold togglePause. simpl.
    destruct (negb (isPaused s)); simpl; auto.
  - destruct (offer_fields d s) as (_ & _ & _ & _ & _ & H5 & H6 & _).
    split; [exact H5|]. split; [exact H6|]. right. exists d. reflexivity.
Qed.

Lemma adjustCanvasSize_control (size : Z) (s : State) (tape : list Q)
      (s' : State) (rest : list Q) :
  adjustCanvasSize size s tape = Ok (s', rest) ->
  direction s' = direction s /\ inputQueue s' = inputQueue s /\
  gameOver s' = gameOver s /\ isPaused s' = isPaused s /\
  gameStarted s' = gameStarted s /\
  List.length (snake s') = List.length (snake s).
Proof.
  unfold adjustCanvasSize. cbv zeta.
  destruct (_ || _).
  - destruct (generateFood _ _ tape) as [[f rest']|]; [|discriminate].
    intros H. injection H as <- <-. simpl. rewrite length_map.
    repeat split.
  - intros H. injection H as <- <-. simpl. rewrite length_map.
    repeat split.
Qed.

(** What [onOpen] returns. *)
Lemma onOpen_state (cfg : SnakePluginSettings) (size : Z) (tape : list Q)
      (s : State) (rest : list Q) :
  onOpen cfg size tape = Ok (s, rest) ->
  map cellOf (snake s)
  = [ {| px := gridSize cfg / 2; py := gridSize cfg / 2 |} ] /\
  direction s = Right /\ inputQueue s = [] /\ gameOver s = false /\
  isPaused s = false /\ gameStarted s = false /\ score s = 0 /\
  settings s = cfg /\ moveInterval s = gameSpeed cfg.
Proof.
  unfold onOpen.
  destruct (generateFood _ _ tape) as [[f rest']|]; [|discriminate].
  intros Hopen.
  destruct (adjustCanvasSize_fields _ _ _ _ _ Hopen) as (H1 & H2 & H3 & H4).
  destruct (adjustCanvasSize_control _ _ _ _ _ Hopen)
    as (H5 & H6 & H7 & H8 & H9 & _).
  rewrite H1, H2, H3, H4, H5, H6, H7, H8, H9. simpl. repeat split.
Qed.

(** ** The input queue over a run *)

(** X1. The input queue of a game never holds more than two directions:
    offers stop at two, a tick only takes one out, and restarts keep the
    queue as it is. *)
Theorem queue_never_exceeds_cap (cfg : SnakePluginSettings) (s : State) :
  reachable cfg s -> (List.length (inputQueue s) <= MAX_QUEUED_INPUTS)%nat.
Proof.
  unfold MAX_QUEUED_INPUTS.
  induction 1 as [size tape s rest Hopen
                 |now tape s s' rest _ IH Htick
                 |d s _ IH|now key s _ IH|s _ IH|s _ IH].
  - destruct (onOpen_state _ _ _ _ _ Hopen) as (_ & _ & -> & _). simpl. lia.
  - destruct (tick_control _ _ _ _ _ Htick)
      as [(_ & -> & _)|(_ & _ & _ & -> & _)]; [exact IH|].
    destruct (inputQueue s); simpl in *; lia.
  - destruct (offer_queue d s) as [->|(-> & Hlen & _)]; [exact IH|].
    rewrite length_app. simpl. lia.
  - destruct (keyDownHandler_control now key s) as (_ & _ & [->|[d ->]]);
      [exact IH|].
    destruct (offer_queue d s) as [->|(-> & Hlen & _)]; [exact IH|].
    rewrite length_app. simpl. lia.
  - exact IH.
  - exact IH.
Qed.

Lemma queue_never_exceeds_cap_coiled :
  (List.length (inputQueue coiled) <= MAX_QUEUED_INPUTS)%nat.
Proof.
  apply (queue_never_exceeds_cap DEFAULT_SETTINGS coiled).
  exact coiled_reachable.
Defined.

Lemma last_cons_default {A : Type} (a b c : A) (q : list A) :
  last (a :: q) b = last (a :: q) c.
Proof.
  revert a. induction q as [|e q IH]; intros a; [reflexivity|].
  change (last (e :: q) b = last (e :: q) c). apply IH.
Qed.

Lemma noReverse_app (from d : Direction) (q : list Direction) :
  noReverse from (q ++ [d])
  = noReverse from q && negb (Direction_eqb d (opposite (last q from))).
Proof.
  revert from. induction q as [|a q IH]; intros from.
  - cbn [app noReverse last andb]. apply andb_true_r.
  - change (last (a :: q) from) with
      (match q with [] => a | _ :: _ => last q from end).
    assert (Hlast : match q with [] => a | _ :: _ => last q from end
                    = last q a)
      by (destruct q; [reflexivity|apply last_cons_default]).
    rewrite Hlast. cbn [app noReverse]. rewrite IH. now rewrite andb_assoc.
Qed.

Lemma queueInOrder_offer (d : Direction) (s : State) :
  queueInOrder s -> queueInOrder (offer d s).
Proof.
  intros [Hq Hdir].
  destruct (offer_fields d s) as (Hsn & _ & _ & _ & _ & Hd & _).
  unfold queueInOrder. rewrite Hsn, Hd.
  destruct (offer_queue d s) as [->|(-> & _ & Hrev)]; [now split|].
  split.
  - destruct (inputQueue s) as [|a q] eqn:Hqueue; [reflexivity|].
    cbn [app]. rewrite noReverse_app, Hq. cbn [andb].
    rewrite (last_cons_default a (direction s) a) in Hrev.
    change (last (a :: q) a) with
      (match q with [] => a | _ :: _ => last q a end) in Hrev.
    assert (Hlast : match q with [] => a | _ :: _ => last q a end
                    = last q a) by (now destruct q).
    rewrite Hlast in Hrev. now rewrite Hrev.
  - intros Hlen. rewrite noReverse_app, (Hdir Hlen), Hrev. reflexivity.
Qed.

Lemma reachable_queueInOrder (cfg : SnakePluginSettings) (s : State) :
  reachable cfg s -> queueInOrder s.
Proof.
  induction 1 as [size tape s rest Hopen
                 |now tape s s' rest _ IH Htick
                 |d s _ IH|now key s _ IH|s _ IH|s _ IH].
  - destruct (onOpen_state _ _ _ _ _ Hopen) as (_ & _ & Hq & _).
    unfold queueInOrder. rewrite Hq. simpl. auto.
  - destruct (tick_control _ _ _ _ _ Htick)
      as [(_ & -> & _)|(_ & _ & Hd & Hq & _)]; [exact IH|].
    destruct IH as [IHq _].
    unfold queueInOrder. rewrite Hd, Hq. unfold servedDirection.
    destruct (inputQueue s) as [|a q]; [simpl; auto|].
    cbn [tl]. split; [|intros _; exact IHq].
    destruct q as [|b q]; [exact I|].
    cbn [noReverse] in IHq. apply andb_true_iff in IHq. tauto.
  - now apply queueInOrder_offer.
  - destruct (keyDownHandler_fields now key s) as (Hsn & _).
    destruct (keyDownHandler_control now key s) as (Hd & _ & [Hq|[d Hq]]).
    + unfold queueInOrder. now rewrite Hsn, Hd, Hq.
    + rewrite Hq. now apply queueInOrder_offer.
  - destruct IH as [IHq _]. split; [exact IHq|].
    simpl. intros Hlen. lia.
  - destruct IH as [IHq _]. split; [exact IHq|].
    simpl. intros Hlen. lia.
Qed.

(** X2. The queue of a game never holds a direction next to its reverse;
    and once the snake has a second segment, the oldest queued direction is
    not the reverse of the current one. (Right after a restart it can be:
    [initializeGame] sets the direction to right and keeps the queue.) *)
Theorem queue_never_reverses (cfg : SnakePluginSettings) (s : State) :
  reachable cfg s -> queueInOrder s.
Proof. apply reachable_queueInOrder. Qed.

Lemma queue_never_reverses_coiled : queueInOrder coiled.
Proof.
  apply (queue_never_reverses DEFAULT_SETTINGS coiled).
  exact coiled_reachable.
Defined.

(** ** The neck of the snake *)

Lemma mod_step_up (n v : Z) :
  0 <= v < n -> (v + 1) mod n = if v + 1 <? n then v + 1 else 0.
Proof.
  intros Hv. destruct (v + 1 <? n) eqn:Hlt.
  - apply Z.ltb_lt in Hlt. apply Z.mod_small. lia.
  - apply Z.ltb_ge in Hlt. replace (v + 1) with n by lia.
    apply Z_mod_same_full.
Qed.

Lemma mod_step_down (n v : Z) :
  0 <= v < n -> (v + -1) mod n = if 0 <? v then v - 1 else n - 1.
Proof.
  intros Hv. destruct (0 <? v) eqn:Hlt.
  - apply Z.ltb_lt in Hlt. apply Z.mod_small. lia.
  - apply Z.ltb_ge in Hlt. replace (v + -1) with (n - 1 + -1 * n) by lia.
    rewrite Z_mod_plus_full. apply Z.mod_small. lia.
Qed.

Lemma mod_step_stay (n v : Z) : 0 <= v < n -> (v + 0) mod n = v.
Proof. intros Hv. rewrite Z.add_0_r. now apply Z.mod_small. Qed.

(** While a game is not over, the second segment lies one step behind the
    head, against the current direction. *)
Lemma reachable_neckBehind (cfg : SnakePluginSettings) (s : State) :
  0 < gridSize cfg -> reachable cfg s -> gameOver s = false ->
  neckBehind s.
Proof.
  intros Hn Hreach.
  induction Hreach as [size tape s rest Hopen
                      |now tape s s' rest Hreach IH Htick
                      |d s _ IH|now key s _ IH|s _ IH|s _ IH];
    intros Hover.
  - destruct (onOpen_state _ _ _ _ _ Hopen) as (Hsn & _).
    unfold neckBehind. destruct (snake s) as [|a [|b l]]; try exact I.
    discriminate.
  - destruct (reachable_settingsKept cfg s Hreach) as (Hg & _).
    pose proof (reachable_snakeInGrid cfg s Hn Hreach) as Hgrid.
    destruct (tick_settings _ _ _ _ _ Htick) as (Hg' & _).
    destruct (tick_control _ _ _ _ _ Htick)
      as [(_ & -> & _)|(Hover0 & Hpause0 & Hd & _ & _ & _ & Hend)];
      [now apply IH|].
    destruct Hend as [(Habs & _)|_];
      [rewrite Habs in Hover; discriminate|].
    pose proof (tick_outcome now s tape) as Hout.
    unfold neckBehind. rewrite Hd, Hg'.
    apply tick_inv in Htick.
    destruct Htick as [(Hidle & _)|(head & _ & Hpause & Hhead & Hcase)];
      [rewrite Hover0, Hpause0 in Hidle; discriminate|].
    assert (Hstep : forall tl0,
               match committedHead s head :: tl0 with
               | h :: neck :: _ => True
               | _ => True
               end) by (intros; now destruct tl0).
    clear Hstep Hout.
    unfold movedHead in Hhead.
    destruct (snake s) as [|first body] eqn:Hs; [discriminate|].
    injection Hhead as <-.
    assert (Hfirst : inGrid (gridSize (settings s)) (cellOf first)).
    { unfold snakeInGrid in Hgrid. rewrite Hs in Hgrid.
      now inversion Hgrid. }
    assert (Hn' : 0 < gridSize (settings s)) by (now rewrite Hg).
    destruct (moveHead_mod _ (servedDirection s) first Hn' Hfirst)
      as [Hx Hy].
    destruct Hcase as [(_ & _ & ->)|[(_ & _ & _ & ->)|(_ & _ & f & _ & ->)]].
    + destruct (showGameOverMenu_fields (set_gameOver true (served s)))
        as (_ & _ & _ & _ & H5 & _).
      rewrite H5 in Hover. discriminate.
    + cbn [snake set_lastMoveTime set_snake].
      destruct body as [|second body]; [exact I|].
      change (removelast (committedHead s (moveHead (gridSize (settings s))
                                             (servedDirection s) first)
                          :: first :: second :: body))
        with (committedHead s (moveHead (gridSize (settings s))
                                 (servedDirection s) first)
              :: first :: removelast (second :: body)).
      cbn [x y committedHead]. auto.
    + destruct (speedUp_fields
                  (set_food f
                     (set_score (score s + 10)
                        (set_snake
                           (committedHead s
                              (moveHead (gridSize (settings s))
                                 (servedDirection s) first)
                            :: first :: body)
                           (served s))))) as (H1 & _).
      cbn [snake set_lastMoveTime]. rewrite H1.
      cbn [snake set_food set_score set_snake x y committedHead]. auto.
  - destruct (offer_fields d s) as (H1 & _ & _ & H4 & _ & H6 & H7 & _).
    unfold neckBehind. rewrite H1, H4, H6. apply IH. now rewrite <- H7.
  - destruct (keyDownHandler_fields now key s) as (H1 & _ & _ & H4 & _).
    destruct (keyDownHandler_control now key s) as (H6 & H7 & _).
    unfold neckBehind. rewrite H1, H4, H6. apply IH. now rewrite <- H7.
  - exact I.
  - exact I.
Qed.

(** X3. On a grid of at least 3 cells per axis, the tick of a running game
    never turns a snake of two or more segments back onto its second
    segment: the head it computes is another cell. This is what the
    reversal test of the queue is for. *)
Theorem tick_never_turns_onto_neck (cfg : SnakePluginSettings) (s : State)
        (head neck : Segment) (body : list Segment) :
  reachable cfg s -> 3 <= gridSize cfg ->
  gameOver s = false -> isPaused s = false ->
  snake s = head :: neck :: body ->
  exists moved,
    movedHead s = Some moved /\ cellOf moved <> cellOf neck.
Proof.
  intros Hreach Hn Hover Hpause Hs.
  assert (Hpos : 0 < gridSize cfg) by lia.
  destruct (reachable_settingsKept cfg s Hreach) as (Hg & _).
  pose proof (reachable_snakeInGrid cfg s Hpos Hreach) as Hgrid.
  pose proof (reachable_neckBehind cfg s Hpos Hreach Hover) as Hneck.
  destruct (reachable_queueInOrder cfg s Hreach) as [_ Hdir].
  unfold snakeInGrid in Hgrid. unfold neckBehind in Hneck.
  rewrite Hs in Hgrid, Hneck. rewrite Hg in Hgrid, Hneck.
  assert (Hlen : (2 <= List.length (snake s))%nat)
    by (rewrite Hs; simpl; lia).
  specialize (Hdir Hlen).
  inversion Hgrid as [|? ? [Hhx Hhy] Hgrid']; subst.
  inversion Hgrid' as [|? ? [Hnx Hny] _]; subst.
  simpl in Hhx, Hhy, Hnx, Hny.
  exists (moveHead (gridSize (settings s)) (servedDirection s) head).
  split; [unfold movedHead; now rewrite Hs|].
  assert (Hhead : inGrid (gridSize (settings s)) (cellOf head))
    by (rewrite Hg; split; assumption).
  assert (Hpos' : 0 < gridSize (settings s)) by (now rewrite Hg).
  destruct (moveHead_mod _ (servedDirection s) head Hpos' Hhead)
    as [Hx Hy].
  rewrite Hg in Hx, Hy.
  intros Heq. rewrite Hg in Heq. unfold cellOf in Heq.
  injection Heq as Hex Hey.
  rewrite Hx in Hex. rewrite Hy in Hey.
  destruct Hneck as [Hbx Hby].
  assert (Hturn : servedDirection s <> opposite (direction s)).
  { unfold servedDirection. destruct (inputQueue s) as [|d q].
    - destruct (direction s); simpl; discriminate.
    - cbn [noReverse] in Hdir. apply andb_true_iff in Hdir.
      destruct Hdir as [Hdir _].
      destruct d, (direction s); simpl in Hdir |- *;
        first [discriminate Hdir | discriminate]. }
  revert Hex Hey Hbx Hby Hturn.
  generalize (gridSize cfg) Hn Hhx Hhy Hnx Hny. clear.
  intros n Hn Hhx Hhy Hnx Hny.
  destruct (servedDirection s), (direction s); cbn [dx dy opposite];
    intros Hex Hey Hbx Hby Hturn; try congruence;
    rewrite ?(mod_step_up n _ Hhx), ?(mod_step_down n _ Hhx),
      ?(mod_step_stay n _ Hhx) in Hex;
    rewrite ?(mod_step_up n _ Hhy), ?(mod_step_down n _ Hhy),
      ?(mod_step_stay n _ Hhy) in Hey;
    rewrite ?(mod_step_up n _ Hnx), ?(mod_step_down n _ Hnx),
      ?(mod_step_stay n _ Hnx) in Hbx;
    rewrite ?(mod_step_up n _ Hny), ?(mod_step_down n _ Hny),
      ?(mod_step_stay n _ Hny) in Hby;
    repeat match goal with
           | H : context [if ?c then _ else _] |- _ =>
               let E := fresh "E" in
               destruct c eqn:E;
               [ try apply Z.ltb_lt in E | try apply Z.ltb_ge in E ]
           end; lia.
Qed.

Lemma tick_never_turns_onto_neck_coiled :
  exists moved,
    movedHead coiled = Some moved /\
    cellOf moved <> cellOf (segment 14 11 14 10).
Proof.
  apply (tick_never_turns_onto_neck DEFAULT_SETTINGS coiled
           (segment 13 11 14 11) (segment 14 11 14 10)
           [ segment 14 10 13 10; segment 13 10 12 10;
             segment 12 10 11 10 ]).
  - exact coiled_reachable.
  - vm_compute. discriminate.
  - reflexivity.
  - reflexivity.
  - reflexivity.
Defined.

(** ** The food over a run *)

Lemma occupies_removelast (body : list Segment) (cx cy : Z) :
  occupies (removelast body) cx cy = true -> occupies body cx cy = true.
Proof.
  rewrite !occupies_In, map_removelast. apply In_removelast.
Qed.

Lemma generateFood_inGrid (n : Z) (body : list Segment) (tape : list Q)
      (f : Point) (rest : list Q) :
  0 < n -> Forall unitInterval tape ->
  generateFood n body tape = Some (f, rest) -> inGrid n f.
Proof.
  intros Hn Htape Hgen.
  destruct (generateFood_sound n body tape f rest Hgen)
    as (_ & rx & ry & Hx & Hy & ->).
  rewrite Forall_forall in Htape.
  split; simpl; apply randomIndex_range; auto.
Qed.

(** Where the food is after a tick: where it was, unless the snake ate it;
    then it is the cell [generateFood] returned for the grown snake. *)
Lemma tick_food (now : Q) (s : State) (tape : list Q) (s' : State)
      (rest : list Q) :
  updateGameState now s tape = Ok (s', rest) ->
  (food s' = food s /\
   (snake s' = snake s
    \/ exists head,
         hitsSnake s head = false /\ onFood s head = false /\
         snake s' = removelast (committedHead s head :: snake s)))
  \/ (exists head,
         generateFood (gridSize (settings s))
           (committedHead s head :: snake s) tape = Some (food s', rest) /\
         snake s' = committedHead s head :: snake s).
Proof.
  intros Htick.
  destruct (served_fields s) as (Hsn & Hfd & _).
  apply tick_inv in Htick.
  destruct Htick as [(_ & -> & _)|(head & _ & _ & _ & Hcase)];
    [left; auto|].
  destruct Hcase as [(_ & _ & ->)|[(Hhit & Hfood & _ & ->)
                                  |(_ & _ & f & Hgen & ->)]].
  - left.
    destruct (showGameOverMenu_fields (set_gameOver true (served s)))
      as (H1 & H2 & _).
    rewrite H1, H2. simpl. rewrite Hsn, Hfd. auto.
  - left. simpl. rewrite Hfd. split; [reflexivity|]. right.
    exists head. auto.
  - right. exists head.
    destruct (speedUp_fields
                (set_food f
                   (set_score (score s + 10)
                      (set_snake (committedHead s head :: snake s)
                         (served s))))) as (H1 & H2 & _).
    cbn [snake food set_lastMoveTime]. rewrite H1, H2. simpl. auto.
Qed.

Lemma tick_keeps_food_off (now : Q) (s : State) (tape : list Q)
      (s' : State) (rest : list Q) :
  updateGameState now s tape = Ok (s', rest) ->
  foodOffSnake s -> foodOffSnake s'.
Proof.
  intros Htick Hoff. unfold foodOffSnake, onSnake in *.
  destruct (tick_food _ _ _ _ _ Htick)
    as [(-> & [->|(head & Hhit & Hfood & ->)])|(head & Hgen & ->)].
  - exact Hoff.
  - destruct (occupies (removelast _) _ _) eqn:Hocc; [|reflexivity].
    apply occupies_removelast in Hocc.
    cbn [occupies existsb x y committedHead] in Hocc.
    unfold onFood in Hfood. rewrite Hfood in Hocc. cbn [orb] in Hocc.
    unfold occupies in Hoff. rewrite Hoff in Hocc. discriminate.
  - now destruct (generateFood_sound _ _ _ _ _ Hgen) as [Hfree _].
Qed.

Lemma initializeGame_food (s : State) :
  foodOffSnake (initializeGame s)
  \/ exists seg,
       snake (initializeGame s) = [seg] /\
       cellOf seg = food (initializeGame s).
Proof.
  unfold foodOffSnake, onSnake, initializeGame.
  cbn [snake food occupies existsb x y].
  destruct (food s) as [fx fy]. cbn [px py].
  destruct (Z.eqb_spec (gridSize (settings s) / 2) fx) as [Hx|Hx];
    [|left; reflexivity].
  destruct (Z.eqb_spec (gridSize (settings s) / 2) fy) as [Hy|Hy];
    [|left; reflexivity].
  right. eexists. split; [reflexivity|].
  unfold cellOf. cbn [x y]. f_equal; assumption.
Qed.

(** X4. In every state of a game the food is on no segment of the snake,
    with one exception: a restart puts the snake back to one segment in
    the centre and leaves the food where it was, so that this one segment
    can be on the food until the snake moves off. *)
Theorem food_off_snake_but_after_restart (cfg : SnakePluginSettings)
        (s : State) :
  reachable cfg s ->
  foodOffSnake s
  \/ exists seg, snake s = [seg] /\ cellOf seg = food s.
Proof.
  induction 1 as [size tape s rest Hopen
                 |now tape s s' rest _ IH Htick
                 |d s _ IH|now key s _ IH|s _ IH|s _ IH].
  - left. unfold onOpen in Hopen.
    destruct (generateFood _ _ tape) as [[f rest']|] eqn:Hgen;
      [|discriminate].
    destruct (generateFood_sound _ _ _ _ _ Hgen) as [Hfree _].
    unfold adjustCanvasSize in Hopen. cbv zeta in Hopen.
    destruct (_ || _) in Hopen.
    + destruct (generateFood _ _ rest') as [[f' rest'']|] eqn:Hgen';
        [|discriminate].
      injection Hopen as <- <-.
      now destruct (generateFood_sound _ _ _ _ _ Hgen') as [Hfree' _].
    + injection Hopen as <- <-. unfold foodOffSnake, onSnake in *.
      simpl in *. exact Hfree.
  - destruct IH as [IH|(seg & Hs & Hseg)];
      [left; eapply tick_keeps_food_off; eassumption|].
    destruct (tick_food _ _ _ _ _ Htick)
      as [(Hf & [Hsn|(head & Hhit & Hfood & Hsn)])|(head & Hgen & Hsn)].
    + right. exists seg. now rewrite Hsn, Hf.
    + left. unfold foodOffSnake, onSnake. rewrite Hsn, Hf, Hs.
      cbn [removelast occupies existsb x y committedHead].
      unfold onFood in Hfood. rewrite Hfood. reflexivity.
    + left. unfold foodOffSnake. rewrite Hsn.
      now destruct (generateFood_sound _ _ _ _ _ Hgen) as [Hfree _].
  - destruct (offer_fields d s) as (H1 & H2 & _).
    unfold foodOffSnake. now rewrite H1, H2.
  - destruct (keyDownHandler_fields now key s) as (H1 & H2 & _).
    unfold foodOffSnake. now rewrite H1, H2.
  - apply initializeGame_food.
  - apply initializeGame_food.
Qed.

Lemma food_off_snake_but_after_restart_coiled :
  foodOffSnake coiled
  \/ exists seg, snake coiled = [seg] /\ cellOf seg = food coiled.
Proof.
  apply (food_off_snake_but_after_restart DEFAULT_SETTINGS coiled).
  exact coiled_reachable.
Defined.

Lemma tick_keeps_food_in_grid (now : Q) (s : State) (tape : list Q)
      (s' : State) (rest : list Q) :
  0 < gridSize (settings s) -> Forall unitInterval tape ->
  updateGameState now s tape = Ok (s', rest) ->
  foodInGrid s -> foodInGrid s'.
Proof.
  intros Hn Htape Htick Hin. unfold foodInGrid in *.
  destruct (tick_settings _ _ _ _ _ Htick) as (-> & _).
  destruct (tick_food _ _ _ _ _ Htick) as [(-> & _)|(head & Hgen & _)].
  - exact Hin.
  - eapply generateFood_inGrid; eassumption.
Qed.

(** A frame ticks or does nothing, and so does the frame that ends a key
    press. *)
Lemma animate_step (now : Q) (s : State) (tape : list Q) (s' : State)
      (rest : list Q) (again : bool) :
  animate now s tape = Ok (s', rest, again) ->
  (s' = s /\ rest = tape) \/ updateGameState now s tape = Ok (s', rest).
Proof.
  unfold animate.
  destruct (negb (gameStarted s) || gameOver s).
  { intros H. injection H as <- <- _. auto. }
  cbv zeta. destruct (Qle_bool _ _).
  - destruct (updateGameState now s tape) as [[s1 rest1]| |];
      try discriminate.
    intros H. injection H as <- <- _. auto.
  - intros H. injection H as <- <- _. auto.
Qed.

Lemma firstFrame_step (s : State) (tape : list Q) (s' : State)
      (rest : list Q) :
  firstFrame s tape = Ok (s', rest) ->
  (s' = s /\ rest = tape) \/ updateGameState 0 s tape = Ok (s', rest).
Proof.
  unfold firstFrame.
  destruct (animate 0 s tape) as [[[s1 rest1] again]| |] eqn:Hframe;
    try discriminate.
  intros H. injection H as <- <-. eapply animate_step. exact Hframe.
Qed.

Lemma pressKey_step (now : Q) (key : string) (s : State) (tape : list Q)
      (s' : State) (rest : list Q) :
  pressKey now key s tape = Ok (s', rest) ->
  (s' = keyDownHandler now key s /\ rest = tape)
  \/ updateGameState 0 (keyDownHandler now key s) tape = Ok (s', rest).
Proof.
  unfold pressKey, keyDownHandler.
  destruct (negb (gameStarted s)).
  { destruct ((key =? "Enter") || (key =? " "))%string.
    - apply firstFrame_step.
    - intros H. injection H as <- <-. auto. }
  destruct (key =? "Escape")%string.
  { unfold togglePause. cbn [isPaused set_isPaused].
    destruct (negb (isPaused s)).
    - intros H. injection H as <- <-. auto.
    - apply firstFrame_step. }
  destruct (isPaused s).
  { intros H. injection H as <- <-. auto. }
  destruct (keyDirection key); intros H; injection H as <- <-; auto.
Qed.

(** What the callbacks of an open game lead to are states of a game. *)
Lemma run_reachable (cfg : SnakePluginSettings) (calls : list Callback) :
  forall s s', reachable cfg s -> run calls s = Ok s' -> reachable cfg s'.
Proof.
  induction calls as [|[now tape|now key tape] more IH];
    intros s s' Hs Hrun.
  - injection Hrun as <-. exact Hs.
  - cbn [run] in Hrun.
    destruct (animate now s tape) as [[[s1 rest] again]| |] eqn:Hframe;
      try discriminate.
    apply (IH s1); [|exact Hrun].
    destruct (animate_step _ _ _ _ _ _ Hframe) as [[-> _]|Htick];
      [exact Hs|].
    eapply reach_tick; eassumption.
  - cbn [run] in Hrun.
    destruct (pressKey now key s tape) as [[s1 rest]| |] eqn:Hkey;
      try discriminate.
    apply (IH s1); [|exact Hrun].
    destruct (pressKey_step _ _ _ _ _ _ Hkey) as [[-> _]|Htick].
    + now apply reach_key.
    + eapply reach_tick; [|exact Htick]. now apply reach_key.
Qed.

Lemma openAndRun_reachable (cfg : SnakePluginSettings) (size : Z)
      (tape : list Q) (calls : list Callback) (s : State) :
  openAndRun cfg size tape calls = Ok s -> reachable cfg s.
Proof.
  unfold openAndRun.
  destruct (onOpen cfg size tape) as [[s0 rest]| |] eqn:Hopen;
    try discriminate.
  apply run_reachable. eapply reach_open. exact Hopen.
Qed.

Lemma run_keeps_food (calls : list Callback) :
  forall s s',
    0 < gridSize (settings s) -> validTapes calls ->
    run calls s = Ok s' ->
    foodInGrid s /\ foodOffSnake s -> foodInGrid s' /\ foodOffSnake s'.
Proof.
  induction calls as [|[now tape|now key tape] more IH];
    intros s s' Hn Hvalid Hrun [Hin Hoff].
  - injection Hrun as <-. auto.
  - inversion Hvalid as [|? ? Htape Hmore]; subst.
    cbn [run] in Hrun.
    destruct (animate now s tape) as [[[s1 rest] again]| |] eqn:Hframe;
      try discriminate.
    destruct (animate_step _ _ _ _ _ _ Hframe) as [[-> _]|Htick].
    + now apply (IH s s').
    + destruct (tick_settings _ _ _ _ _ Htick) as (Hg & _).
      apply (IH s1 s'); [now rewrite Hg|exact Hmore|exact Hrun|].
      split.
      * eapply tick_keeps_food_in_grid; eassumption.
      * eapply tick_keeps_food_off; eassumption.
  - inversion Hvalid as [|? ? Htape Hmore]; subst.
    cbn [run] in Hrun.
    destruct (pressKey now key s tape) as [[s1 rest]| |] eqn:Hkey;
      try discriminate.
    destruct (keyDownHandler_fields now key s) as (H1 & H2 & _ & H4 & _).
    assert (Hmid : foodInGrid (keyDownHandler now key s) /\
                   foodOffSnake (keyDownHandler now key s))
      by (unfold foodInGrid, foodOffSnake; now rewrite H1, H2, H4).
    assert (Hn' : 0 < gridSize (settings (keyDownHandler now key s)))
      by (now rewrite H4).
    destruct (pressKey_step _ _ _ _ _ _ Hkey) as [[-> _]|Htick].
    + now apply (IH (keyDownHandler now key s) s').
    + destruct (tick_settings _ _ _ _ _ Htick) as (Hg & _).
      destruct Hmid as [Hmin Hmoff].
      apply (IH s1 s'); [now rewrite Hg|exact Hmore|exact Hrun|].
      split.
      * eapply tick_keeps_food_in_grid; eassumption.
      * eapply tick_keeps_food_off; eassumption.
Qed.

(** X5. A game that is opened and then gets frames and key presses,
    without a restart, has its food on the grid and off the snake all
    along, for a grid of at least one cell and values of [Math.random()] in
    [0, 1). *)
Theorem food_on_grid_and_off_snake (cfg : SnakePluginSettings) (size : Z)
        (tape : list Q) (calls : list Callback) (s : State) :
  0 < gridSize cfg -> Forall unitInterval tape -> validTapes calls ->
  openAndRun cfg size tape calls = Ok s ->
  foodInGrid s /\ foodOffSnake s.
Proof.
  intros Hn Htape Hvalid Hrun. unfold openAndRun in Hrun.
  destruct (onOpen cfg size tape) as [[s0 rest]| |] eqn:Hopen;
    try discriminate.
  destruct (onOpen_state _ _ _ _ _ Hopen)
    as (_ & _ & _ & _ & _ & _ & _ & Hset & _).
  apply (run_keeps_food calls s0 s);
    [now rewrite Hset|exact Hvalid|exact Hrun|].
  unfold onOpen in Hopen.
  destruct (generateFood _ _ tape) as [[f rest']|] eqn:Hgen;
    [|discriminate].
  pose proof (generateFood_inGrid _ _ _ _ _ Hn Htape Hgen) as Hf.
  destruct (generateFood_sound _ _ _ _ _ Hgen) as [Hfree _].
  unfold adjustCanvasSize in Hopen. cbv zeta in Hopen.
  cbn [food set_snake set_cellSize initializeGame settings] in Hopen.
  destruct Hf as [Hfx Hfy].
  assert (Hx : (px f >=? gridSize cfg) = false)
    by (rewrite Z.geb_leb; apply Z.leb_gt; lia).
  assert (Hy : (py f >=? gridSize cfg) = false)
    by (rewrite Z.geb_leb; apply Z.leb_gt; lia).
  rewrite Hx, Hy in Hopen. cbn [orb] in Hopen.
  injection Hopen as <- <-. split.
  - unfold foodInGrid. simpl. split; assumption.
  - unfold foodOffSnake, onSnake in *. simpl in *. exact Hfree.
Qed.

Lemma food_on_grid_and_off_snake_coiled :
  foodInGrid coiled /\ foodOffSnake coiled.
Proof.
  apply (food_on_grid_and_off_snake DEFAULT_SETTINGS 400
           [pick 11; pick 10] coilCalls coiled).
  - reflexivity.
  - repeat constructor; apply (unitInterval_div _ 20); lia.
  - unfold validTapes, coilCalls.
    repeat constructor; apply (unitInterval_div _ 20); lia.
  - vm_compute. reflexivity.
Defined.

(** ** The high score *)

Lemma showGameOverMenu_highScore (s : State) :
  highScore (settings (showGameOverMenu s))
  = Z.max (highScore (settings s)) (score s).
Proof.
  unfold showGameOverMenu.
  destruct (score s >? highScore (settings s)) eqn:Hgt; simpl.
  - apply Z.gtb_lt in Hgt. lia.
  - rewrite Z.gtb_ltb in Hgt. apply Z.ltb_ge in Hgt. lia.
Qed.

Lemma tick_highScore (now : Q) (s : State) (tape : list Q) (s' : State)
      (rest : list Q) :
  updateGameState now s tape = Ok (s', rest) ->
  highScore (settings s) <= highScore (settings s') /\
  (gameOver s = false -> gameOver s' = true ->
   highScore (settings s') = Z.max (highScore (settings s)) (score s') /\
   score s' = score s).
Proof.
  intros Htick.
  destruct (served_fields s) as (_ & _ & Hsc & _ & Hset & _ & Hgo & _).
  apply tick_inv in Htick.
  destruct Htick as [(_ & -> & _)|(head & Hover & _ & _ & Hcase)].
  { split; [lia|]. intros H1 H2. rewrite H1 in H2. discriminate. }
  destruct Hcase as [(_ & _ & ->)|[(_ & _ & _ & ->)|(_ & _ & f & _ & ->)]].
  - rewrite showGameOverMenu_highScore.
    destruct (showGameOverMenu_fields (set_gameOver true (served s)))
      as (_ & _ & H3 & _).
    rewrite H3. simpl. rewrite Hset, Hsc. split; [lia|auto].
  - simpl. rewrite Hset, Hgo, Hover. split; [lia|discriminate].
  - destruct (speedUp_fields
                (set_food f
                   (set_score (score s + 10)
                      (set_snake (committedHead s head :: snake s)
                         (served s))))) as (_ & _ & _ & H4 & H5).
    cbn [settings gameOver set_lastMoveTime]. rewrite H4, H5. simpl.
    rewrite Hset, Hgo, Hover. split; [lia|discriminate].
Qed.

(** X6. The stored high score never goes down in a game, and whenever the
    game is over it is at least the score: the tick that ends the game
    raises it to the score if the score is higher. *)
Theorem high_score_covers_final_score (cfg : SnakePluginSettings)
        (s : State) :
  reachable cfg s ->
  highScore cfg <= highScore (settings s) /\
  (gameOver s = true -> score s <= highScore (settings s)).
Proof.
  induction 1 as [size tape s rest Hopen
                 |now tape s s' rest _ IH Htick
                 |d s _ IH|now key s _ IH|s _ IH|s _ IH].
  - destruct (onOpen_state _ _ _ _ _ Hopen)
      as (_ & _ & _ & Hgo & _ & _ & _ & Hset & _).
    rewrite Hset, Hgo. split; [lia|discriminate].
  - destruct IH as [IH1 IH2].
    destruct (tick_highScore _ _ _ _ _ Htick) as [Hmono Hend].
    split; [lia|]. intros Hover'.
    destruct (gameOver s) eqn:Hover.
    + destruct (tick_control _ _ _ _ _ Htick)
        as [(_ & -> & _)|(Habs & _)]; [now apply IH2|].
      rewrite Hover in Habs. discriminate.
    + destruct (Hend eq_refl Hover') as [-> _]. lia.
  - destruct (offer_fields d s) as (_ & _ & H3 & H4 & _ & _ & H7 & _).
    now rewrite H3, H4, H7.
  - destruct (keyDownHandler_fields now key s) as (_ & _ & H3 & H4 & _).
    destruct (keyDownHandler_control now key s) as (_ & H7 & _).
    now rewrite H3, H4, H7.
  - destruct IH as [IH1 _]. simpl. split; [exact IH1|discriminate].
  - destruct IH as [IH1 _]. simpl. split; [exact IH1|discriminate].
Qed.

Lemma crashed_reachable : reachable DEFAULT_SETTINGS crashed.
Proof.
  apply (reach_tick DEFAULT_SETTINGS 1050 [] coiled crashed []).
  - exact coiled_reachable.
  - vm_compute. reflexivity.
Qed.

Lemma high_score_covers_final_score_crashed :
  highScore DEFAULT_SETTINGS <= highScore (settings crashed) /\
  (gameOver crashed = true -> score crashed <= highScore (settings crashed)).
Proof.
  apply (high_score_covers_final_score DEFAULT_SETTINGS crashed).
  exact crashed_reachable.
Defined.

(** ** The frame loop *)

Lemma Qle_bool_false (a b : Q) : (b < a)%Q -> Qle_bool a b = false.
Proof.
  intros Hlt. destruct (Qle_bool a b) eqn:Hle; [|reflexivity].
  apply Qle_bool_iff in Hle. exfalso. now apply (Qlt_not_le b a).
Qed.

(** A frame that comes before the move interval has passed changes
    nothing. *)
Lemma animate_waits (t : Q) (s : State) (tape : list Q) :
  (t - lastMoveTime s < inject_Z (moveInterval s))%Q ->
  animate t s tape
  = Ok (s, tape,
        negb (negb (gameStarted s) || gameOver s)
        && (negb (gameOver s) && negb (isPaused s))).
Proof.
  intros Hearly. unfold animate.
  destruct (negb (gameStarted s) || gameOver s); [reflexivity|].
  cbv zeta. now rewrite (Qle_bool_false _ _ Hearly).
Qed.

(** X7. The snake moves at most once per move interval, however often
    frames come and however many frame loops run: when a frame at time [t]
    has changed the game, every frame earlier than [t] plus the move
    interval leaves it as it is (and asks for a next frame exactly if the
    first did). *)
Theorem frames_move_once_per_interval (t : Q) (s : State) (tape : list Q)
        (s' : State) (rest : list Q) (again : bool) :
  animate t s tape = Ok (s', rest, again) -> s' <> s ->
  forall t' tape',
    (t' - t < inject_Z (moveInterval s'))%Q ->
    animate t' s' tape' = Ok (s', tape', again).
Proof.
  intros Hframe Hchanged t' tape' Hearly.
  unfold animate in Hframe.
  destruct (negb (gameStarted s) || gameOver s) eqn:Hidle.
  { injection Hframe as <- _ _. contradiction. }
  apply orb_false_iff in Hidle. destruct Hidle as [Hstarted Hover].
  apply negb_false_iff in Hstarted.
  cbv zeta in Hframe.
  destruct (Qle_bool _ _) in Hframe.
  2:{ injection Hframe as <- _ _. contradiction. }
  destruct (updateGameState t s tape) as [[s1 rest1]| |] eqn:Htick;
    try discriminate.
  injection Hframe as <- <- <-.
  destruct (tick_control _ _ _ _ _ Htick)
    as [(_ & -> & _)|(_ & _ & _ & _ & Hpause' & Hstarted' & Hend)];
    [contradiction|].
  rewrite Hstarted in Hstarted'.
  destruct Hend as [(Hover' & _)|(Hover' & Hstamp)].
  - unfold animate. rewrite Hstarted', Hover'. reflexivity.
  - rewrite <- Hstamp in Hearly.
    rewrite (animate_waits t' s1 tape' Hearly).
    now rewrite Hstarted', Hover', Hpause'.
Qed.

Lemma frames_move_once_per_interval_fed :
  animate 290 fed [pick 1; pick 1] = Ok (fed, [pick 1; pick 1], true).
Proof.
  apply (frames_move_once_per_interval 150 started [pick 3; pick 4] fed []
           true).
  - vm_compute. reflexivity.
  - discriminate.
  - reflexivity.
Defined.

(** ** Key presses *)

Lemma frame_at_zero_waits (now : Q) (s : State) (tape : list Q) :
  (0 <= now)%Q -> 0 < moveInterval s -> lastMoveTime s = now ->
  firstFrame s tape = Ok (s, tape).
Proof.
  intros Hnow Hmi Hlast. unfold firstFrame.
  rewrite animate_waits; [reflexivity|].
  rewrite Hlast.
  assert (H1 : (0 - now == - now)%Q) by apply Qplus_0_l.
  assert (H2 : (- now <= 0)%Q)
    by (change 0%Q with (- 0)%Q; now apply Qopp_le_compat).
  rewrite H1. apply Qle_lt_trans with 0%Q; [exact H2|].
  now apply inject_Z_pos.
Qed.

(** X8. The frame that [startGame] and a resuming [togglePause] run at
    once (an [animate()] at time 0) never ticks when the move interval is
    positive and the clock is not negative: with it or without it, a key
    press changes the game as [keyDownHandler] says and draws no value of
    [Math.random()]. *)
Theorem key_press_never_ticks (now : Q) (key : string) (s : State)
        (tape : list Q) :
  (0 <= now)%Q -> 0 < moveInterval s ->
  pressKey now key s tape = Ok (keyDownHandler now key s, tape).
Proof.
  intros Hnow Hmi. unfold pressKey, keyDownHandler.
  destruct (negb (gameStarted s)).
  { destruct ((key =? "Enter") || (key =? " "))%string; [|reflexivity].
    now apply (frame_at_zero_waits now). }
  destruct (key =? "Escape")%string.
  { unfold togglePause. cbn [isPaused set_isPaused].
    destruct (negb (isPaused s)); [reflexivity|].
    now apply (frame_at_zero_waits now). }
  destruct (isPaused s); [reflexivity|].
  now destruct (keyDirection key).
Qed.

Lemma key_press_never_ticks_opened :
  pressKey 5 "Enter" opened [pick 3; pick 4]
  = Ok (keyDownHandler 5 "Enter" opened, [pick 3; pick 4]).
Proof.
  apply (key_press_never_ticks 5 "Enter" opened [pick 3; pick 4]).
  - discriminate.
  - reflexivity.
Defined.

Lemma run_app (calls more : list Callback) :
  forall s,
    run (calls ++ more) s
    = match run calls s with
      | Ok s' => run more s'
      | TypeError => TypeError
      | OutOfDraws => OutOfDraws
      end.
Proof.
  induction calls as [|[now tape|now key tape] calls IH]; intros s;
    cbn [app run]; [reflexivity| |].
  - destruct (animate now s tape) as [[[s1 rest] again]| |];
      [apply IH|reflexivity|reflexivity].
  - destruct (pressKey now key s tape) as [[s1 rest]| |];
      [apply IH|reflexivity|reflexivity].
Qed.

(** While a started game is paused, frames and all keys but Escape do
    nothing. *)
Lemma run_paused (calls : list Callback) (s : State) :
  gameStarted s = true -> isPaused s = true -> noEscape calls ->
  run calls s = Ok s.
Proof.
  intros Hstarted Hpaused Hno.
  induction calls as [|[now tape|now key tape] calls IH]; [reflexivity| |].
  - inversion Hno as [|? ? _ Hmore]; subst. cbn [run].
    assert (Hframe : exists again, animate now s tape = Ok (s, tape, again)).
    { unfold animate. destruct (negb (gameStarted s) || gameOver s);
        [eauto|].
      cbv zeta. destruct (Qle_bool _ _); [|eauto].
      rewrite tick_idle by (rewrite Hpaused; apply orb_true_r). eauto. }
    destruct Hframe as [again ->]. now apply IH.
  - inversion Hno as [|? ? Hkey Hmore]; subst. cbn [run].
    unfold pressKey. rewrite Hstarted, Hkey, Hpaused. cbn [negb].
    now apply IH.
Qed.

(** X9. Pause and resume restore the game: when a started, running game
    with a positive move interval is paused with Escape, then gets any
    frames and any keys but Escape, and is resumed with Escape at a time
    that is not negative, it is in the state it was paused in, but for
    [lastMoveTime], which is the time of the resume: the time spent paused
    does not count towards the next move. *)
Theorem pause_and_resume_restore (t1 t2 : Q) (tape1 tape2 : list Q)
        (calls : list Callback) (s : State) :
  gameStarted s = true -> isPaused s = false ->
  0 < moveInterval s -> (0 <= t2)%Q -> noEscape calls ->
  run (Press t1 "Escape" tape1 :: calls ++ [Press t2 "Escape" tape2]) s
  = Ok (set_lastMoveTime t2 s).
Proof.
  intros Hstarted Hpaused Hmi Ht2 Hno.
  cbn [run].
  assert (Hkey : pressKey t1 "Escape" s tape1
                 = Ok (set_isPaused true s, tape1)).
  { unfold pressKey. rewrite Hstarted. cbn. now rewrite Hpaused. }
  rewrite Hkey, run_app, (run_paused calls (set_isPaused true s));
    [|exact Hstarted|reflexivity|exact Hno].
  cbn [run]. unfold pressKey.
  cbn [gameStarted set_isPaused isPaused negb]. rewrite Hstarted.
  cbn [negb String.eqb]. cbv iota.
  rewrite (frame_at_zero_waits t2); [|exact Ht2|exact Hmi|reflexivity].
  destruct s. cbn in *. now subst.
Qed.

Lemma pause_and_resume_restore_fed :
  run (Press 200 "Escape" []
       :: [Frame 400 [pick 1; pick 1]; Press 500 "ArrowUp" [];
           Frame 600 []]
          ++ [Press 900 "Escape" []]) fed
  = Ok (set_lastMoveTime 900 fed).
Proof.
  apply (pause_and_resume_restore 200 900 [] []
           [Frame 400 [pick 1; pick 1]; Press 500 "ArrowUp" [];
            Frame 600 []] fed).
  - reflexivity.
  - reflexivity.
  - reflexivity.
  - discriminate.
  - repeat constructor.
Defined.

(** X10. Once the game is over it stays over under frames and key
    presses, and they change neither snake nor score, food, settings, move
    interval or direction: only a restart button brings the game back.
    Keys are still read: Escape toggles the pause flag and direction keys
    are queued. *)
Theorem game_over_is_final (calls : list Callback) (s s' : State) :
  gameOver s = true -> run calls s = Ok s' ->
  gameOver s' = true /\ snake s' = snake s /\ score s' = score s /\
  food s' = food s /\ settings s' = settings s /\
  moveInterval s' = moveInterval s /\ direction s' = direction s.
Proof.
  revert s. induction calls as [|[now tape|now key tape] calls IH];
    intros s Hover Hrun.
  - injection Hrun as <-. repeat split. exact Hover.
  - cbn [run] in Hrun. unfold animate in Hrun.
    rewrite Hover, orb_true_r in Hrun. now apply IH.
  - cbn [run] in Hrun.
    destruct (pressKey now key s tape) as [[s1 rest]| |] eqn:Hkey;
      try discriminate.
    destruct (keyDownHandler_fields now key s) as (H1 & H2 & H3 & H4 & H5).
    destruct (keyDownHandler_control now key s) as (H6 & H7 & _).
    assert (Hs1 : s1 = keyDownHandler now key s).
    { destruct (pressKey_step _ _ _ _ _ _ Hkey) as [[-> _]|Htick];
        [reflexivity|].
      rewrite tick_idle in Htick by (now rewrite H7, Hover).
      now injection Htick as <- _. }
    subst s1.
    destruct (IH (keyDownHandler now key s)) as (G0 & G1 & G2 & G3 & G4
                                                 & G5 & G6);
      [now rewrite H7|exact Hrun|].
    repeat split; congruence.
Qed.

Lemma game_over_is_final_crashed :
  gameOver (offer Left (set_isPaused true crashed)) = true /\
  snake (offer Left (set_isPaused true crashed)) = snake crashed /\
  score (offer Left (set_isPaused true crashed)) = score crashed /\
  food (offer Left (set_isPaused true crashed)) = food crashed /\
  settings (offer Left (set_isPaused true crashed)) = settings crashed /\
  moveInterval (offer Left (set_isPaused true crashed))
  = moveInterval crashed /\
  direction (offer Left (set_isPaused true crashed)) = direction crashed.
Proof.
  apply (game_over_is_final
           [Frame 1200 []; Press 1300 "ArrowLeft" [];
            Press 1400 "Escape" []; Frame 1500 [pick 1; pick 1]] crashed).
  - reflexivity.
  - vm_compute. reflexivity.
Defined.

(** ** [generateFood]: which cell, and how many draws *)

(** Induction over a tape, round by round. *)
Lemma rounds_ind (P : list Q -> Prop) :
  P [] -> (forall r, P [r]) ->
  (forall rx ry rest, P rest -> P (rx :: ry :: rest)) ->
  forall tape, P tape.
Proof.
  intros Hnil Hone Hround.
  fix IH 1. intros [|rx [|ry rest]].
  - exact Hnil.
  - apply Hone.
  - apply Hround. apply IH.
Qed.

(** X11. [generateFood] returns the first drawn cell that is off the snake
    and nothing else, and it takes two values of [Math.random()] for each
    round up to that one: it returns [c] and leaves [rest] exactly when
    some round [k] draws [c], [c] is off the snake, every round before [k]
    drew a cell of the snake, and [rest] is the tape after [2 * (k + 1)]
    values. *)
Theorem generateFood_returns_first_free (n : Z) (body : list Segment)
        (tape : list Q) (c : Point) (rest : list Q) :
  generateFood n body tape = Some (c, rest) <->
  exists k,
    roundCell n tape k = Some c /\ onSnake body c = false /\
    (forall j c', (j < k)%nat -> roundCell n tape j = Some c' ->
                  onSnake body c' = true) /\
    rest = skipn (2 * (k + 1)) tape.
Proof.
  split.
  - induction tape as [|r|rx ry tape' IH] using rounds_ind;
      intros Hgen; try discriminate.
    cbn [generateFood] in Hgen.
    destruct (occupies body (randomIndex rx n) (randomIndex ry n))
      eqn:Hocc.
    + destruct (IH Hgen) as (k & Hk & Hfree & Hbefore & Hrest).
      exists (S k). split; [exact Hk|]. split; [exact Hfree|]. split.
      * intros j c' Hj Hc'. destruct j as [|j].
        -- cbn [roundCell] in Hc'. injection Hc' as <-. exact Hocc.
        -- apply (Hbefore j c'); [lia|exact Hc'].
      * rewrite Hrest. replace (2 * (S k + 1))%nat
          with (S (S (2 * (k + 1))))%nat by lia. reflexivity.
    + injection Hgen as <- <-. exists O. split; [reflexivity|].
      split; [exact Hocc|]. split; [intros j c' Hj; lia|reflexivity].
  - intros (k & Hk & Hfree & Hbefore & ->). revert tape Hk Hbefore.
    induction k as [|k IH]; intros tape Hk Hbefore;
      destruct tape as [|rx [|ry tape']]; try discriminate.
    + cbn [roundCell] in Hk. injection Hk as <-.
      unfold onSnake in Hfree. cbn [px py] in Hfree.
      cbn [generateFood]. rewrite Hfree. reflexivity.
    + cbn [roundCell] in Hk. cbn [generateFood].
      assert (H0 := Hbefore O _ (Nat.lt_0_succ k) eq_refl).
      unfold onSnake in H0. cbn [px py] in H0. rewrite H0.
      replace (2 * (S k + 1))%nat with (S (S (2 * (k + 1))))%nat by lia.
      cbn [skipn]. apply IH; [exact Hk|].
      intros j c' Hj Hc'. apply (Hbefore (S j) c'); [lia|exact Hc'].
Qed.

(** ** [generateFood]: every free cell is as likely as any other *)

Lemma returnsCell_cons (n : Z) (body : list Segment) (c d : Point)
      (cells : list Point) :
  0 < n ->
  returnsCell n body c (d :: cells)
  = if onSnake body d then returnsCell n body c cells else sameCell d c.
Proof.
  intros Hn. unfold returnsCell. cbn [tapeOf generateFood].
  rewrite !randomIndex_exact by exact Hn. unfold onSnake.
  destruct (occupies body (px d) (py d)); reflexivity.
Qed.

Lemma filter_returnsCell_cons (n : Z) (body : list Segment) (c d : Point)
      (l : list (list Point)) :
  0 < n ->
  filter (returnsCell n body c) (map (cons d) l)
  = if onSnake body d then map (cons d) (filter (returnsCell n body c) l)
    else if sameCell d c then map (cons d) l else [].
Proof.
  intros Hn. induction l as [|a l IH].
  - simpl. destruct (onSnake body d), (sameCell d c); reflexivity.
  - cbn [map filter]. rewrite IH, (returnsCell_cons n body c d a Hn).
    destruct (onSnake body d).
    + destruct (returnsCell n body c a); reflexivity.
    + destruct (sameCell d c); reflexivity.
Qed.

Lemma length_filter_returnsCell_extend (n : Z) (body : list Segment)
      (c : Point) (cells : list Point) (l : list (list Point)) :
  0 < n ->
  List.length
    (filter (returnsCell n body c)
            (flat_map (fun d => map (cons d) l) cells))
  = (List.length (filter (onSnake body) cells)
     * List.length (filter (returnsCell n body c) l)
     + List.length
         (filter (fun d => negb (onSnake body d) && sameCell d c) cells)
       * List.length l)%nat.
Proof.
  intros Hn. induction cells as [|d cells IH]; [reflexivity|].
  cbn [flat_map filter].
  rewrite filter_app, length_app, IH, (filter_returnsCell_cons _ _ _ _ _ Hn).
  destruct (onSnake body d); cbn [negb andb List.length].
  - rewrite length_map. lia.
  - destruct (sameCell d c); cbn [List.length].
    + rewrite length_map. lia.
    + lia.
Qed.

Lemma count_in_seq (v : Z) (len : nat) :
  forall start,
    List.length (filter (fun u => u =? v) (map Z.of_nat (seq start len)))
    = if (Z.of_nat start <=? v) && (v <? Z.of_nat (start + len))
      then 1%nat else 0%nat.
Proof.
  induction len as [|len IH]; intros start.
  - cbn [seq map filter List.length].
    destruct (Z.of_nat start <=? v) eqn:H1; [|reflexivity].
    destruct (v <? Z.of_nat (start + 0)) eqn:H2; [|reflexivity].
    apply Z.leb_le in H1. apply Z.ltb_lt in H2. lia.
  - cbn [seq map filter].
    destruct (Z.eqb_spec (Z.of_nat start) v) as [Heq|Hne];
      cbn [List.length]; rewrite (IH (S start)).
    + assert (H1 : (Z.of_nat (S start) <=? v) = false)
        by (apply Z.leb_gt; lia).
      assert (H2 : (Z.of_nat start <=? v) = true) by (apply Z.leb_le; lia).
      assert (H3 : (v <? Z.of_nat (start + S len)) = true)
        by (apply Z.ltb_lt; lia).
      rewrite H1, H2, H3. reflexivity.
    + replace (S start + len)%nat with (start + S len)%nat by lia.
      destruct (v <? Z.of_nat (start + S len)); [|now rewrite !andb_false_r].
      rewrite !andb_true_r.
      destruct (Z.of_nat (S start) <=? v) eqn:H1;
        destruct (Z.of_nat start <=? v) eqn:H2; try reflexivity.
      * apply Z.leb_le in H1. apply Z.leb_gt in H2. lia.
      * apply Z.leb_gt in H1. apply Z.leb_le in H2. lia.
Qed.

Lemma count_in_axis (n v : Z) :
  0 <= v < n -> List.length (filter (fun u => u =? v) (axis n)) = 1%nat.
Proof.
  intros Hv. unfold axis. rewrite count_in_seq.
  assert (H1 : (Z.of_nat 0 <=? v) = true) by (apply Z.leb_le; lia).
  assert (H2 : (v <? Z.of_nat (0 + Z.to_nat n)) = true)
    by (apply Z.ltb_lt; lia).
  now rewrite H1, H2.
Qed.

Lemma count_in_gridCells (n : Z) (c : Point) :
  inGrid n c ->
  List.length (filter (fun d => sameCell d c) (gridCells n)) = 1%nat.
Proof.
  intros [Hx Hy]. unfold gridCells.
  assert (Hrow : forall cx l,
             List.length
               (filter (fun d => sameCell d c)
                       (map (fun cy => {| px := cx; py := cy |}) l))
             = if cx =? px c
               then List.length (filter (fun u => u =? py c) l)
               else 0%nat).
  { intros cx l. induction l as [|cy l IH].
    - simpl. now destruct (cx =? px c).
    - cbn [map filter]. unfold sameCell at 1. cbn [px py].
      destruct (cx =? px c); cbn [andb].
      + destruct (cy =? py c); cbn [List.length]; now rewrite IH.
      + exact IH. }
  assert (Hall : forall l1 l2,
             List.length
               (filter (fun d => sameCell d c)
                       (flat_map
                          (fun cx => map (fun cy => {| px := cx; py := cy |})
                                         l2) l1))
             = (List.length (filter (fun u => Z.eqb u (px c)) l1)
                * List.length (filter (fun u => Z.eqb u (py c)) l2))%nat).
  { intros l1 l2. induction l1 as [|cx l1 IH]; [reflexivity|].
    cbn [flat_map filter]. rewrite filter_app, length_app, IH, Hrow.
    destruct (cx =? px c); cbn [List.length]; lia. }
  rewrite Hall, !count_in_axis by assumption. reflexivity.
Qed.

(** X12. The food is placed uniformly among the free cells: for two cells
    of the grid that are off the snake and any number [k] of rounds, of the
    equally likely sequences of cells that [k] rounds can draw, as many
    make [generateFood] return the one cell as the other; and some do, when
    there is a round at all. *)
Theorem generateFood_uniform (n : Z) (body : list Segment) (c1 c2 : Point)
        (k : nat) :
  0 < n -> inGrid n c1 -> inGrid n c2 ->
  onSnake body c1 = false -> onSnake body c2 = false ->
  List.length (filter (returnsCell n body c1) (sequences (gridCells n) k))
  = List.length (filter (returnsCell n body c2) (sequences (gridCells n) k))
  /\ (k <> O ->
      (0 < List.length (filter (returnsCell n body c1)
                               (sequences (gridCells n) k)))%nat).
Proof.
  intros Hn Hg1 Hg2 Hf1 Hf2.
  assert (Hone : forall c, inGrid n c -> onSnake body c = false ->
             List.length
               (filter (fun d => negb (onSnake body d) && sameCell d c)
                       (gridCells n)) = 1%nat).
  { intros c Hg Hf. rewrite <- (count_in_gridCells n c Hg).
    f_equal. apply filter_ext. intros d.
    destruct (sameCell d c) eqn:Hsame; [|apply andb_false_r].
    rewrite andb_true_r. unfold sameCell in Hsame.
    apply andb_true_iff in Hsame. destruct Hsame as [Hx Hy].
    apply Z.eqb_eq in Hx. apply Z.eqb_eq in Hy.
    unfold onSnake in *. now rewrite Hx, Hy, Hf. }
  split.
  - induction k as [|k IH]; [reflexivity|].
    cbn [sequences].
    rewrite !length_filter_returnsCell_extend by exact Hn.
    now rewrite IH, (Hone c1 Hg1 Hf1), (Hone c2 Hg2 Hf2).
  - intros Hk. destruct k as [|k]; [contradiction|].
    cbn [sequences].
    rewrite length_filter_returnsCell_extend by exact Hn.
    rewrite (Hone c1 Hg1 Hf1), length_sequences.
    assert (Hcells : List.length (gridCells n) <> O).
    { apply In_gridCells in Hg1. destruct (gridCells n); [contradiction|].
      discriminate. }
    pose proof (Nat.pow_nonzero _ k Hcells). lia.
Qed.

Lemma generateFood_uniform_coiled :
  List.length (filter (returnsCell 20 (snake coiled) {| px := 0; py := 0 |})
                      (sequences (gridCells 20) 3))
  = List.length (filter (returnsCell 20 (snake coiled)
                                     {| px := 19; py := 7 |})
                        (sequences (gridCells 20) 3))
  /\ (3%nat <> O ->
      (0 < List.length (filter (returnsCell 20 (snake coiled)
                                            {| px := 0; py := 0 |})
                               (sequences (gridCells 20) 3)))%nat).
Proof.
  apply (generateFood_uniform 20 (snake coiled)).
  - lia.
  - unfold inGrid. simpl. lia.
  - unfold inGrid. simpl. lia.
  - reflexivity.
  - reflexivity.
Defined.

(** ** Resizing the canvas *)

Lemma map_place_twice (c : Z) (l : list Segment) :
  map (fun segment =>
         {| x := x segment; y := y segment;
            actualX := Some (x segment * c);
            actualY := Some (y segment * c) |})
      (map (fun segment =>
              {| x := x segment; y := y segment;
                 actualX := Some (x segment * c);
                 actualY := Some (y segment * c) |}) l)
  = map (fun segment =>
           {| x := x segment; y := y segment;
              actualX := Some (x segment * c);
              actualY := Some (y segment * c) |}) l.
Proof. rewrite map_map. apply map_ext. reflexivity. Qed.

(** X13. [adjustCanvasSize] never moves the snake on the grid: it keeps the
    cells of all segments, and sets the cell size and the pixel position of
    every segment from it. Afterwards both coordinates of the food are
    below [gridSize]: the food stays where it is, or, when it was beyond
    the grid, it is placed again off the snake. Doing it again with the
    same size changes nothing and draws nothing. (Grid of at least one
    cell, values of [Math.random()] in [0, 1).) *)
Theorem adjustCanvasSize_keeps_game (size : Z) (s : State) (tape : list Q)
        (s' : State) (rest : list Q) :
  0 < gridSize (settings s) -> Forall unitInterval tape ->
  adjustCanvasSize size s tape = Ok (s', rest) ->
  map cellOf (snake s') = map cellOf (snake s) /\
  cellSize s' = size / gridSize (settings s) /\
  Forall (fun seg => actualX seg = Some (x seg * cellSize s') /\
                     actualY seg = Some (y seg * cellSize s')) (snake s') /\
  px (food s') < gridSize (settings s) /\
  py (food s') < gridSize (settings s) /\
  ((food s' = food s /\ rest = tape) \/ foodOffSnake s') /\
  adjustCanvasSize size s' rest = Ok (s', rest).
Proof.
  intros Hn Htape Hadj.
  destruct (adjustCanvasSize_fields _ _ _ _ _ Hadj) as (Hcells & _ & Hset & _).
  split; [exact Hcells|].
  unfold adjustCanvasSize in Hadj |- *. cbv zeta in Hadj |- *.
  cbn [food settings snake set_snake set_cellSize] in Hadj.
  rewrite Hset.
  set (c := size / gridSize (settings s)) in *.
  set (place := fun segment =>
                  {| x := x segment; y := y segment;
                     actualX := Some (x segment * c);
                     actualY := Some (y segment * c) |}) in *.
  assert (Hplaced : forall l,
             Forall (fun seg => actualX seg = Some (x seg * c) /\
                                actualY seg = Some (y seg * c))
                    (map place l)).
  { intros l. apply Forall_forall. intros seg Hin.
    apply in_map_iff in Hin. destruct Hin as [seg0 [<- _]]. now split. }
  destruct ((px (food s) >=? gridSize (settings s))
            || (py (food s) >=? gridSize (settings s))) eqn:Hbeyond.
  - destruct (generateFood _ _ tape) as [[f rest']|] eqn:Hgen;
      [|discriminate].
    injection Hadj as <- <-.
    destruct (generateFood_inGrid _ _ _ _ _ Hn Htape Hgen)
      as [[_ Hfx] [_ Hfy]].
    destruct (generateFood_sound _ _ _ _ _ Hgen) as [Hfree _].
    cbn [cellSize snake food settings set_food set_snake set_cellSize].
    split; [reflexivity|]. split; [apply Hplaced|].
    split; [exact Hfx|]. split; [exact Hfy|]. split; [right; exact Hfree|].
    assert (H1 : (px f >=? gridSize (settings s)) = false)
      by (rewrite Z.geb_leb; apply Z.leb_gt; lia).
    assert (H2 : (py f >=? gridSize (settings s)) = false)
      by (rewrite Z.geb_leb; apply Z.leb_gt; lia).
    rewrite H1, H2. cbn [orb]. fold place.
    unfold place at 1 2. rewrite map_place_twice. reflexivity.
  - injection Hadj as <- <-.
    apply orb_false_iff in Hbeyond. destruct Hbeyond as [H1 H2].
    cbn [cellSize snake food settings set_food set_snake set_cellSize].
    split; [reflexivity|]. split; [apply Hplaced|].
    split; [rewrite Z.geb_leb in H1; apply Z.leb_gt in H1; exact H1|].
    split; [rewrite Z.geb_leb in H2; apply Z.leb_gt in H2; exact H2|].
    split; [left; auto|].
    rewrite H1, H2. cbn [orb]. fold place.
    unfold place at 1 2. rewrite map_place_twice. reflexivity.
Qed.

Lemma adjustCanvasSize_keeps_game_fed :
  exists s',
    adjustCanvasSize 500 fed [] = Ok (s', []) /\
    map cellOf (snake s') = map cellOf (snake fed) /\
    cellSize s' = 500 / 20 /\
    Forall (fun seg => actualX seg = Some (x seg * cellSize s') /\
                       actualY seg = Some (y seg * cellSize s'))
           (snake s') /\
    px (food s') < 20 /\ py (food s') < 20 /\
    ((food s' = food fed /\ @nil Q = []) \/ foodOffSnake s') /\
    adjustCanvasSize 500 s' [] = Ok (s', []).
Proof.
  eexists. split; [vm_compute; reflexivity|].
  apply (adjustCanvasSize_keeps_game 500 fed [] _ []).
  - reflexivity.
  - constructor.
  - vm_compute. reflexivity.
Defined.

(** ** The shape of the snake *)

Lemma connected_removelast (n : Z) (cells : list Point) :
  connected n cells -> connected n (removelast cells).
Proof.
  induction cells as [|a cells IH]; [auto|].
  destruct cells as [|b cells]; [auto|].
  intros [Hstep Hrest].
  change (removelast (a :: b :: cells))
    with (a :: removelast (b :: cells)).
  specialize (IH Hrest).
  destruct cells as [|c cells]; [exact I|].
  change (removelast (b :: c :: cells))
    with (b :: removelast (c :: cells)) in IH |- *.
  split; [exact Hstep|exact IH].
Qed.

(** X14. The snake is always a connected path: in every state of a game
    on a grid of at least one cell, each segment is one step from the
    next, up, down, left or right, with the wrap-around at the borders. *)
Theorem snake_is_connected (cfg : SnakePluginSettings) (s : State) :
  0 < gridSize cfg -> reachable cfg s ->
  connected (gridSize cfg) (map cellOf (snake s)).
Proof.
  intros Hn Hreach.
  induction Hreach as [size tape s rest Hopen
                      |now tape s s' rest Hreach IH Htick
                      |d s _ IH|now key s _ IH|s _ IH|s _ IH].
  - destruct (onOpen_state _ _ _ _ _ Hopen) as (-> & _). exact I.
  - destruct (reachable_settingsKept cfg s Hreach) as (Hg & _).
    pose proof (reachable_snakeInGrid cfg s Hn Hreach) as Hgrid.
    destruct (served_fields s) as (Hsn & _).
    apply tick_inv in Htick.
    destruct Htick as [(_ & -> & _)|(head & _ & _ & Hhead & Hcase)];
      [exact IH|].
    assert (Hnew : connected (gridSize cfg)
                     (map cellOf (committedHead s head :: snake s))).
    { unfold movedHead in Hhead.
      destruct (snake s) as [|first body] eqn:Hs; [discriminate|].
      injection Hhead as <-. cbn [map connected]. split; [|exact IH].
      assert (Hfirst : inGrid (gridSize (settings s)) (cellOf first)).
      { unfold snakeInGrid in Hgrid. rewrite Hs in Hgrid.
        now inversion Hgrid. }
      assert (Hn' : 0 < gridSize (settings s)) by (now rewrite Hg).
      destruct (moveHead_mod _ (servedDirection s) first Hn' Hfirst)
        as [Hx Hy].
      exists (servedDirection s). rewrite <- Hg. cbn. auto. }
    destruct Hcase as [(_ & _ & ->)|[(_ & _ & _ & ->)|(_ & _ & f & _ & ->)]].
    + destruct (showGameOverMenu_fields (set_gameOver true (served s)))
        as (H1 & _).
      rewrite H1. simpl. now rewrite Hsn.
    + cbn [snake set_lastMoveTime set_snake].
      rewrite map_removelast. now apply connected_removelast.
    + destruct (speedUp_fields
                  (set_food f
                     (set_score (score s + 10)
                        (set_snake (committedHead s head :: snake s)
                           (served s))))) as (H1 & _).
      cbn [snake set_lastMoveTime]. rewrite H1. exact Hnew.
  - destruct (offer_fields d s) as (H1 & _). now rewrite H1.
  - destruct (keyDownHandler_fields now key s) as (H1 & _). now rewrite H1.
  - exact I.
  - exact I.
Qed.

Lemma snake_is_connected_coiled :
  connected (gridSize DEFAULT_SETTINGS) (map cellOf (snake coiled)).
Proof.
  apply (snake_is_connected DEFAULT_SETTINGS coiled).
  - reflexivity.
  - exact coiled_reachable.
Defined.

(** X15. In every state of a game on a grid of at least one cell all
    segments of the snake are on the grid, and the game has changed none
    of the settings that rule it (grid size, start speed, speed step). *)
Theorem snake_stays_on_grid (cfg : SnakePluginSettings) (s : State) :
  0 < gridSize cfg -> reachable cfg s ->
  Forall (inGrid (gridSize cfg)) (map cellOf (snake s)) /\
  gridSize (settings s) = gridSize cfg /\
  gameSpeed (settings s) = gameSpeed cfg /\
  speedIncrease (settings s) = speedIncrease cfg.
Proof.
  intros Hn Hreach.
  destruct (reachable_settingsKept cfg s Hreach) as (Hg & Hs & Hi).
  pose proof (reachable_snakeInGrid cfg s Hn Hreach) as Hgrid.
  unfold snakeInGrid in Hgrid. rewrite Hg in Hgrid. auto.
Qed.

Lemma snake_stays_on_grid_coiled :
  Forall (inGrid (gridSize DEFAULT_SETTINGS)) (map cellOf (snake coiled)) /\
  gridSize (settings coiled) = gridSize DEFAULT_SETTINGS /\
  gameSpeed (settings coiled) = gameSpeed DEFAULT_SETTINGS /\
  speedIncrease (settings coiled) = speedIncrease DEFAULT_SETTINGS.
Proof.
  apply (snake_stays_on_grid DEFAULT_SETTINGS coiled).
  - reflexivity.
  - exact coiled_reachable.
Defined.

(** ** The move interval *)

Lemma reachable_interval_below_start (cfg : SnakePluginSettings)
      (s : State) :
  reachable cfg s -> moveInterval s <= gameSpeed cfg.
Proof.
  intros Hreach.
  induction Hreach as [size tape s rest Hopen
                      |now tape s s' rest Hreach IH Htick
                      |d s _ IH|now key s _ IH|s Hreach IH|s Hreach IH].
  - destruct (onOpen_state _ _ _ _ _ Hopen)
      as (_ & _ & _ & _ & _ & _ & _ & _ & ->). lia.
  - destruct (served_fields s) as (_ & _ & _ & Hmi & Hset & _).
    apply tick_inv in Htick.
    destruct Htick as [(_ & -> & _)|(head & _ & _ & _ & Hcase)];
      [exact IH|].
    destruct Hcase as [(_ & _ & ->)|[(_ & _ & _ & ->)|(_ & _ & f & _ & ->)]].
    + destruct (showGameOverMenu_fields (set_gameOver true (served s)))
        as (_ & _ & _ & H4 & _).
      rewrite H4. simpl. now rewrite Hmi.
    + simpl. now rewrite Hmi.
    + cbn [moveInterval set_lastMoveTime]. unfold speedUp.
      cbn [settings moveInterval set_food set_score set_snake].
      rewrite Hset, Hmi.
      destruct (speedIncrease (settings s) >? 0) eqn:Hinc;
        destruct (moveInterval s >? 50) eqn:Hgt;
        cbn [andb moveInterval set_moveInterval set_food set_score
             set_snake];
        rewrite ?Hmi; try exact IH.
      apply Z.gtb_lt in Hinc. lia.
  - destruct (offer_fields d s) as (_ & _ & _ & _ & Hmi & _).
    now rewrite Hmi.
  - destruct (keyDownHandler_fields now key s) as (_ & _ & _ & _ & Hmi).
    now rewrite Hmi.
  - destruct (reachable_settingsKept cfg s Hreach) as (_ & Hs & _).
    simpl. lia.
  - destruct (reachable_settingsKept cfg s Hreach) as (_ & Hs & _).
    simpl. lia.
Qed.

(** X16. The game never slows down and never stops: the move interval is
    at most the start speed of the settings, and at least the smaller of
    the start speed and 51 ms less the speed step. For a positive start
    speed and a step of at most 50 (the sliders give 50 to 300 and 0 to
    10) it is positive. *)
Theorem move_interval_bounds (cfg : SnakePluginSettings) (s : State) :
  reachable cfg s ->
  Z.min (gameSpeed cfg) (51 - speedIncrease cfg) <= moveInterval s
  <= gameSpeed cfg /\
  (0 < gameSpeed cfg -> speedIncrease cfg <= 50 -> 0 < moveInterval s).
Proof.
  intros Hreach.
  destruct (reachable_settingsKept cfg s Hreach) as (_ & Hs & Hi).
  pose proof (reachable_intervalBounded cfg s Hreach) as Hlow.
  pose proof (reachable_interval_below_start cfg s Hreach) as Hhigh.
  unfold intervalBounded in Hlow. rewrite Hs, Hi in Hlow.
  split; [split; assumption|]. intros Hspeed Hstep. lia.
Qed.

Lemma move_interval_bounds_fastGame :
  Z.min (gameSpeed fastSettings) (51 - speedIncrease fastSettings)
  <= moveInterval fastGame <= gameSpeed fastSettings /\
  (0 < gameSpeed fastSettings -> speedIncrease fastSettings <= 50 ->
   0 < moveInterval fastGame).
Proof.
  apply (move_interval_bounds fastSettings fastGame).
  exact fastGame_reachable.
Defined.

(** ** The earlier revision: walls instead of wrap-around *)

Lemma Qle_bool_div_iff (w c v : Z) :
  0 < c ->
  Qle_bool (inject_Z w / inject_Z c) (inject_Z v) = true <-> w <= v * c.
Proof.
  intros Hc. split; [|now apply Qle_bool_div].
  intros Hle. apply Qle_bool_iff in Hle.
  assert (Hc' : (0 < inject_Z c)%Q) by (now apply inject_Z_pos).
  assert (Hne : ~ (inject_Z c == 0)%Q).
  { intros H. rewrite H in Hc'. now apply (Qlt_irrefl 0). }
  apply (Qmult_le_compat_r _ _ (inject_Z c)) in Hle;
    [|now apply Qlt_le_weak].
  rewrite (Qmult_comm (inject_Z w / inject_Z c)) in Hle.
  rewrite Qmult_div_r in Hle by exact Hne.
  rewrite <- inject_Z_mult, <- Zle_Qle in Hle. exact Hle.
Qed.

Lemma earlier_hitsWall_iff (s : Earlier.State) (head : Segment) :
  0 < Earlier.gridSize s ->
  Earlier.hitsWall s head = true <-> earlierOutside s head.
Proof.
  intros Hc. unfold Earlier.hitsWall, earlierOutside.
  rewrite !orb_true_iff, !(Qle_bool_div_iff _ _ _ Hc), !Z.ltb_lt. tauto.
Qed.

(** X17. The earlier revision of the tick does not wrap: for a running
    game with cells of a positive size, it ends the game, leaving snake,
    score and food as they are, exactly when the head moved one step in
    [nextDirection] is off the canvas (a coordinate below 0, or at or
    beyond [canvas.width / this.gridSize]) or on the snake; otherwise the
    game goes on with that very cell as the new head. *)
Theorem earlier_tick_ends_at_walls (s : Earlier.State) (tape : list Q)
        (first : Segment) (body : list Segment) :
  0 < Earlier.gridSize s ->
  Earlier.gameOver s = false -> Earlier.isPaused s = false ->
  Earlier.snake s = first :: body ->
  let head := Earlier.moveHead (Earlier.nextDirection s) first in
  (earlierOutside s head \/ occupies (Earlier.snake s) (x head) (y head)
                            = true ->
   exists s',
     Earlier.updateGameState s tape = Ok (s', tape) /\
     Earlier.gameOver s' = true /\ Earlier.snake s' = Earlier.snake s /\
     Earlier.score s' = Earlier.score s /\
     Earlier.food s' = Earlier.food s)
  /\ (~ earlierOutside s head ->
      occupies (Earlier.snake s) (x head) (y head) = false ->
      forall s' rest,
        Earlier.updateGameState s tape = Ok (s', rest) ->
        Earlier.gameOver s' = false /\
        exists seg tl,
          Earlier.snake s' = seg :: tl /\
          x seg = x first + dx (Earlier.nextDirection s) /\
          y seg = y first + dy (Earlier.nextDirection s)).
Proof.
  intros Hc Hover Hpause Hs head.
  set (s1 := {| Earlier.snake := Earlier.snake s;
                Earlier.food := Earlier.food s;
                Earlier.direction := Earlier.nextDirection s;
                Earlier.nextDirection := Earlier.nextDirection s;
                Earlier.score := Earlier.score s;
                Earlier.gridSize := Earlier.gridSize s;
                Earlier.gameOver := Earlier.gameOver s;
                Earlier.isPaused := Earlier.isPaused s;
                Earlier.moveInterval := Earlier.moveInterval s;
                Earlier.canvasWidth := Earlier.canvasWidth s;
                Earlier.canvasHeight := Earlier.canvasHeight s;
                Earlier.highScore := Earlier.highScore s |}).
  assert (Hwall : Earlier.hitsWall s1 head = true <-> earlierOutside s head)
    by (apply (earlier_hitsWall_iff s1 head); exact Hc).
  assert (Hrun : Earlier.updateGameState s tape
                 = if Earlier.hitsWall s1 head then Ok (Earlier.endGame s1, tape)
                   else if occupies (Earlier.snake s) (x head) (y head)
                        then Ok (Earlier.endGame s1, tape)
                        else
                          let newHead :=
                            {| x := x head; y := y head;
                               actualX := Some (x first * Earlier.gridSize s);
                               actualY := Some (y first * Earlier.gridSize s)
                            |} in
                          if (x head =? px (Earlier.food s))
                             && (y head =? py (Earlier.food s))
                          then
                            match Earlier.generateFood s1
                                    (newHead :: Earlier.snake s) tape with
                            | None => OutOfDraws
                            | Some (f, rest) =>
                                Ok ({| Earlier.snake :=
                                         newHead :: Earlier.snake s;
                                       Earlier.food := f;
                                       Earlier.direction :=
                                         Earlier.nextDirection s;
                                       Earlier.nextDirection :=
                                         Earlier.nextDirection s;
                                       Earlier.score := Earlier.score s + 10;
                                       Earlier.gridSize := Earlier.gridSize s;
                                       Earlier.gameOver := Earlier.gameOver s;
                                       Earlier.isPaused := Earlier.isPaused s;
                                       Earlier.moveInterval :=
                                         if Earlier.moveInterval s >? 50
                                         then Earlier.moveInterval s - 2
                                         else Earlier.moveInterval s;
                                       Earlier.canvasWidth :=
                                         Earlier.canvasWidth s;
                                       Earlier.canvasHeight :=
                                         Earlier.canvasHeight s;
                                       Earlier.highScore :=
                                         Earlier.highScore s |}, rest)
                            end
                          else
                            Ok ({| Earlier.snake :=
                                     removelast (newHead :: Earlier.snake s);
                                   Earlier.food := Earlier.food s;
                                   Earlier.direction :=
                                     Earlier.nextDirection s;
                                   Earlier.nextDirection :=
                                     Earlier.nextDirection s;
                                   Earlier.score := Earlier.score s;
                                   Earlier.gridSize := Earlier.gridSize s;
                                   Earlier.gameOver := Earlier.gameOver s;
                                   Earlier.isPaused := Earlier.isPaused s;
                                   Earlier.moveInterval :=
                                     Earlier.moveInterval s;
                                   Earlier.canvasWidth :=
                                     Earlier.canvasWidth s;
                                   Earlier.canvasHeight :=
                                     Earlier.canvasHeight s;
                                   Earlier.highScore :=
                                     Earlier.highScore s |}, tape)).
  { unfold Earlier.updateGameState. rewrite Hover, Hpause. cbn [orb].
    cbv zeta. cbn [Earlier.snake Earlier.food Earlier.score
                   Earlier.gridSize Earlier.nextDirection
                   Earlier.moveInterval Earlier.canvasWidth
                   Earlier.canvasHeight Earlier.highScore
                   Earlier.gameOver Earlier.isPaused].
    rewrite Hs. fold head. unfold s1. rewrite Hover, Hpause, Hs.
    reflexivity. }
  assert (Hmoved : x head = x first + dx (Earlier.nextDirection s) /\
                   y head = y first + dy (Earlier.nextDirection s)).
  { unfold head. destruct (Earlier.nextDirection s); cbn; lia. }
  split.
  - intros Hend. exists (Earlier.endGame s1). rewrite Hrun.
    split; [|cbn; auto].
    destruct (Earlier.hitsWall s1 head) eqn:Hw; [reflexivity|].
    destruct Hend as [Hout|Hhit].
    + apply Hwall in Hout. discriminate.
    + now rewrite Hhit.
  - intros Hin Hfree s' rest. rewrite Hrun.
    destruct (Earlier.hitsWall s1 head) eqn:Hw.
    { exfalso. apply Hin. now apply Hwall. }
    rewrite Hfree. cbv zeta.
    destruct ((x head =? px (Earlier.food s))
              && (y head =? py (Earlier.food s))).
    + destruct (Earlier.generateFood _ _ tape) as [[f rest']|];
        [|discriminate].
      intros H. injection H as <- <-. cbn. split; [exact Hover|].
      eexists. eexists. split; [reflexivity|]. exact Hmoved.
    + intros H. injection H as <- <-.
      cbn [Earlier.gameOver Earlier.snake]. split; [exact Hover|].
      rewrite Hs.
      change (removelast (?h :: first :: body))
        with (h :: removelast (first :: body)).
      eexists. eexists. split; [reflexivity|]. exact Hmoved.
Qed.

Lemma earlier_tick_ends_at_walls_earlierAtWall :
  (earlierOutside earlierAtWall (segment 20 10 18 10)
   \/ occupies (Earlier.snake earlierAtWall) 20 10 = true ->
   exists s',
     Earlier.updateGameState earlierAtWall [] = Ok (s', []) /\
     Earlier.gameOver s' = true /\
     Earlier.snake s' = Earlier.snake earlierAtWall /\
     Earlier.score s' = Earlier.score earlierAtWall /\
     Earlier.food s' = Earlier.food earlierAtWall)
  /\ (~ earlierOutside earlierAtWall (segment 20 10 18 10) ->
      occupies (Earlier.snake earlierAtWall) 20 10 = false ->
      forall s' rest,
        Earlier.updateGameState earlierAtWall [] = Ok (s', rest) ->
        Earlier.gameOver s' = false /\
        exists seg tl,
          Earlier.snake s' = seg :: tl /\
          x seg = 19 + dx Right /\ y seg = 10 + dy Right).
Proof.
  apply (earlier_tick_ends_at_walls earlierAtWall []
           (segment 19 10 18 10) []); reflexivity.
Defined.

(** ** Offers and ticks together *)

Lemma offer_accepts (d : Direction) (s : State) :
  (List.length (inputQueue s) < 2)%nat ->
  d <> opposite (last (inputQueue s) (direction s)) ->
  offer d s = set_inputQueue (inputQueue s ++ [d]) s.
Proof.
  intros Hlen Hturn. unfold offer.
  assert (Hv : isValidDirection s d = true).
  { unfold isValidDirection.
    destruct (last (inputQueue s) (direction s)), d; simpl in *;
      try reflexivity; exfalso; apply Hturn; reflexivity. }
  assert (Hl : (List.length (inputQueue s) <? MAX_QUEUED_INPUTS)%nat = true)
    by (now apply Nat.ltb_lt).
  now rewrite Hv, Hl.
Qed.

Lemma tick_serves (now : Q) (s : State) (tape : list Q) (s' : State)
      (rest : list Q) :
  gameOver s = false -> isPaused s = false ->
  updateGameState now s tape = Ok (s', rest) ->
  direction s' = servedDirection s /\ inputQueue s' = tl (inputQueue s) /\
  isPaused s' = false.
Proof.
  intros Hover Hpause Htick.
  destruct (tick_control _ _ _ _ _ Htick)
    as [(Hidle & _)|(_ & _ & Hd & Hq & Hp & _)]; [|auto].
  rewrite Hover, Hpause in Hidle. discriminate.
Qed.

(** X18. Two turns pressed between two ticks are both made, in the order
    pressed, one per tick: in a running game with an empty queue, after
    the offers [d1] and [d2] (neither a reversal of the direction before
    it), the next tick goes in direction [d1] and leaves [d2] queued, and
    unless that tick ended the game, the tick after it goes in direction
    [d2] and leaves the queue empty. The first tick takes [d1] out of the
    queue even when it ends the game. *)
Theorem two_turns_take_two_ticks (d1 d2 : Direction) (s : State)
        (t1 t2 : Q) (tape1 tape2 : list Q) (s1 s2 : State)
        (rest1 rest2 : list Q) :
  gameOver s = false -> isPaused s = false -> inputQueue s = [] ->
  d1 <> opposite (direction s) -> d2 <> opposite d1 ->
  updateGameState t1 (offer d2 (offer d1 s)) tape1 = Ok (s1, rest1) ->
  direction s1 = d1 /\ inputQueue s1 = [d2] /\
  (gameOver s1 = false ->
   updateGameState t2 s1 tape2 = Ok (s2, rest2) ->
   direction s2 = d2 /\ inputQueue s2 = []).
Proof.
  intros Hover Hpause Hq Hd1 Hd2 Htick1.
  assert (H1 : offer d1 s = set_inputQueue [d1] s).
  { rewrite offer_accepts; rewrite Hq; simpl; auto. }
  assert (H2 : offer d2 (offer d1 s) = set_inputQueue [d1; d2] s).
  { rewrite H1, offer_accepts; simpl; auto. }
  rewrite H2 in Htick1.
  destruct (tick_serves t1 (set_inputQueue [d1; d2] s) tape1 s1 rest1
              Hover Hpause Htick1) as (Hdir1 & Hq1 & Hp1).
  cbn in Hdir1, Hq1.
  split; [exact Hdir1|]. split; [exact Hq1|].
  intros Hover1 Htick2.
  destruct (tick_serves _ _ _ _ _ Hover1 Hp1 Htick2) as (Hdir2 & Hq2 & _).
  unfold servedDirection in Hdir2. rewrite Hq1 in Hdir2, Hq2. auto.
Qed.

Lemma two_turns_take_two_ticks_fed :
  direction (set_lastMoveTime 300
               (set_snake [ segment 11 9 11 10; segment 11 10 10 10 ]
                  (set_inputQueue [Left] (set_direction Up fed)))) = Up /\
  inputQueue (set_lastMoveTime 300
                (set_snake [ segment 11 9 11 10; segment 11 10 10 10 ]
                   (set_inputQueue [Left] (set_direction Up fed))))
  = [Left] /\
  (gameOver (set_lastMoveTime 300
               (set_snake [ segment 11 9 11 10; segment 11 10 10 10 ]
                  (set_inputQueue [Left] (set_direction Up fed)))) = false ->
   updateGameState 450
     (set_lastMoveTime 300
        (set_snake [ segment 11 9 11 10; segment 11 10 10 10 ]
           (set_inputQueue [Left] (set_direction Up fed)))) []
   = Ok (set_lastMoveTime 450
           (set_snake [ segment 10 9 11 9; segment 11 9 11 10 ]
              (set_direction Left fed)), []) ->
   direction (set_lastMoveTime 450
                (set_snake [ segment 10 9 11 9; segment 11 9 11 10 ]
                   (set_direction Left fed))) = Left /\
   inputQueue (set_lastMoveTime 450
                 (set_snake [ segment 10 9 11 9; segment 11 9 11 10 ]
                    (set_direction Left fed))) = []).
Proof.
  apply (two_turns_take_two_ticks Up Left fed 300 450 [] [] _ _ [] []).
  - reflexivity.
  - reflexivity.
  - reflexivity.
  - discriminate.
  - discriminate.
  - vm_compute. reflexivity.
Defined.
